(** * ROV gesture data set preparation: model of [scripts/prepare_and_split.py]
    and of the balancing scripts [scripts/fix_invalid_train.py] and
    [scripts/fix_invalid_val.py].

    The scripts are embedded as Rocq functions.  File-system state, the state
    of Python's global [random] generator and the lines printed on standard
    output are threaded explicitly through a small state-and-exception monad.
    The pseudo-random generators themselves (CPython's and numpy's Mersenne
    Twister) are library code: they are taken as an interface, [RandomSource],
    with the laws their documentation states, [RandomSourceLaws].

    Conventions of the model:
    - a path is the list of its components, so that [os.path.join] appends a
      component and [os.path.basename] takes the last one;
    - the raw tree is read only and given as a listing; the world holds the
      output tree, in which each file records the source it was copied from;
    - the ratios, floats in the script, are rationals: 0.8 is [8 # 10].  The
      floor of [0.8 * n] and the ceiling of [0.5 * m] are the same in double
      precision for every number of files a directory can hold;
    - of the printed lines, those that carry a count or a verdict are kept;
    - [sklearn]'s [train_test_split] follows its source: the size rules of
      [_validate_shuffle_split] and the index split of [ShuffleSplit]. *)

From Stdlib Require Import Ascii QArith Qround.
From stdpp Require Import gmap strings list fin_maps pretty.

(** ** Strings: the [str] methods and [os.path] helpers the scripts call *)

(** [str.lower] on the ASCII range; other bytes are left as they are. *)
Definition ascii_lower (c : ascii) : ascii :=
  let n := nat_of_ascii c in
  if Nat.leb 65 n && Nat.leb n 90 then ascii_of_nat (n + 32) else c.

Fixpoint str_lower (s : string) : string :=
  match s with
  | EmptyString => EmptyString
  | String c s' => String (ascii_lower c) (str_lower s')
  end.

(** [s.endswith(suffix)] *)
Definition str_endswith (s suffix : string) : bool :=
  let n := String.length s in
  let m := String.length suffix in
  Nat.leb m n && String.eqb (String.substring (n - m) m s) suffix.

(** [f.lower().endswith((".jpg", ".jpeg", ".png"))] *)
Definition is_image_name (f : string) : bool :=
  let l := str_lower f in
  str_endswith l ".jpg" || str_endswith l ".jpeg" || str_endswith l ".png".

(** Split at the last dot of [s]: [Some (before, dot_and_after)]. *)
Fixpoint rsplit_dot (s : string) : option (string * string) :=
  match s with
  | EmptyString => None
  | String c s' =>
      match rsplit_dot s' with
      | Some (b, e) => Some (String c b, e)
      | None => if Ascii.eqb c "."%char then Some (EmptyString, s) else None
      end
  end.

Fixpoint all_dots (s : string) : bool :=
  match s with
  | EmptyString => true
  | String c s' => Ascii.eqb c "."%char && all_dots s'
  end.

(** [os.path.splitext] on a base name: the extension starts at the last dot,
    unless only dots come before it. *)
Definition splitext (p : string) : string * string :=
  match rsplit_dot p with
  | Some (b, e) => if all_dots b then (p, EmptyString) else (b, e)
  | None => (p, EmptyString)
  end.

(** A path is the list of its components; [os.path.join p c] appends one. *)
Abbreviation path := (list string).

Definition os_path_join (p : path) (c : string) : path := p ++ [c].

Definition os_path_basename (p : path) : string := default EmptyString (last p).

(** [child_name d q]: [Some c] when [q = os_path_join d c]. *)
Definition child_name (d q : path) : option string :=
  match reverse q with
  | c :: rd => if decide (reverse rd = d) then Some c else None
  | [] => None
  end.

(** ** Configuration: the module constants of [prepare_and_split.py] *)

Record config := {
  RAW_ROOT : path;
  OUT_ROOT : path;
  RANDOM_SEED : Z;
  TRAIN_RATIO : Q;
  VAL_RATIO : Q;
  TEST_RATIO : Q;
  COPY_FILES : bool
}.

Definition script_config : config := {|
  RAW_ROOT := ["N:"; "ROV"; "archive (1)"; "hagrid-classification-512p-127k"];
  OUT_ROOT := ["N:"; "ROV"; "data"];
  RANDOM_SEED := 42;
  TRAIN_RATIO := 8 # 10;
  VAL_RATIO := 1 # 10;
  TEST_RATIO := 1 # 10;
  COPY_FILES := true
|}.

(** ** Label mapping *)

Definition map_to_command : gmap string string :=
  list_to_map [("like", "Forward"); ("fist", "Reverse"); ("palm", "Stop");
               ("one", "Left"); ("peace", "Right")].

Definition TARGET_CLASSES : list string :=
  ["Forward"; "Reverse"; "Stop"; "Left"; "Right"; "Invalid"].

Definition SPLITS : list string := ["train"; "val"; "test"].

(** [map_to_command.get(src.lower(), "Invalid")] *)
Definition mapped_class (src : string) : string :=
  default "Invalid" (map_to_command !! str_lower src).

(** ** Exceptions and the pure error monad *)

Inductive exn :=
| ValueError
| ZeroDivisionError
| IndexError
| FileNotFoundError
| FileExistsError
| NotADirectoryError
| IsADirectoryError.

Abbreviation result := (sum exn).

#[global] Instance result_ret : MRet result := fun A a => inr a.

#[global] Instance result_bind : MBind result := fun A B f m =>
  match m with
  | inl e => inl e
  | inr a => f a
  end.

(** ** The random sources *)

(** [rng] is the state of the global generator of Python's [random] module.
    [random_sample_idx n k] gives the positions that [random.sample] takes out
    of a population of [n]; [np_permutation seed n] is numpy's
    [RandomState(seed).permutation(n)]. *)
Class RandomSource := {
  rng : Type;
  random_seed : Z -> rng;
  random_randint : Z -> Z -> rng -> Z * rng;
  random_sample_idx : nat -> nat -> rng -> list nat * rng;
  np_permutation : Z -> nat -> list nat
}.

Class RandomSourceLaws (RS : RandomSource) : Prop := {
  randint_range : forall a b g,
    (a <= b)%Z -> (a <= (random_randint a b g).1 <= b)%Z;
  sample_idx_distinct : forall n k g,
    k <= n ->
    NoDup (random_sample_idx n k g).1
    /\ length (random_sample_idx n k g).1 = k
    /\ Forall (fun i => i < n) (random_sample_idx n k g).1;
  np_permutation_perm : forall seed n,
    Permutation (np_permutation seed n) (seq 0 n)
}.

(** A small generator to run the model on: a counter. *)
Definition counter_source : RandomSource := {|
  rng := nat;
  random_seed := fun a => Z.to_nat a;
  random_randint := fun a b g =>
    ((a + Z.of_nat g `mod` (b - a + 1))%Z, S g);
  random_sample_idx := fun n k g => (take k (rotate g (seq 0 n)), S g);
  np_permutation := fun _ n => reverse (seq 0 n)
|}.

(** ** [sklearn.model_selection.train_test_split] on one list *)

Definition outside_unit (q : Q) : bool := Qle_bool q 0 || Qle_bool 1 q.

(** [_validate_shuffle_split] for sizes given as floats or [None]
    (default test size 0.25): the numbers of train and test samples. *)
Definition validate_shuffle_split (n_samples : nat)
    (test_size train_size : option Q) : result (nat * nat) :=
  let test_size :=
    match test_size, train_size with
    | None, None => Some (1 # 4)
    | _, _ => test_size
    end in
  let n := Z.of_nat n_samples in
  if from_option outside_unit false test_size then inl ValueError
  else if from_option outside_unit false train_size then inl ValueError
  else
    '(n_train, n_test) ←
      match test_size, train_size with
      | Some te, Some tr =>
          if Qle_bool (te + tr) 1
          then inr (Qfloor (tr * inject_Z n), Qceiling (te * inject_Z n))
          else inl ValueError
      | Some te, None =>
          let n_test := Qceiling (te * inject_Z n) in
          inr ((n - n_test)%Z, n_test)
      | None, Some tr =>
          let n_train := Qfloor (tr * inject_Z n) in
          inr (n_train, (n - n_train)%Z)
      | None, None => inl ValueError
      end;
    if (n <? n_train + n_test)%Z then inl ValueError
    else if (n_train =? 0)%Z then inl ValueError
    else inr (Z.to_nat n_train, Z.to_nat n_test).

(** [ShuffleSplit] checks the integer sizes it is handed once more. *)
Definition int_size_invalid (n_samples size : nat) : bool :=
  Nat.leb n_samples size || Nat.eqb size 0.

(** [_safe_indexing(a, indices)] on a list: [[a[i] for i in indices]]. *)
Definition safe_indexing {A} (a : list A) (indices : list nat) : result (list A) :=
  match mapM (fun i => a !! i) indices with
  | Some l => inr l
  | None => inl IndexError
  end.

(** [train_test_split(arrays, test_size=.., train_size=.., random_state=..,
    shuffle=True)]: the pair (train, test). *)
Definition train_test_split `{RS : RandomSource} {A} (arrays : list A)
    (test_size train_size : option Q) (random_state : Z)
    : result (list A * list A) :=
  let n_samples := length arrays in
  '(n_train, n_test) ← validate_shuffle_split n_samples test_size train_size;
  if int_size_invalid n_samples n_test || int_size_invalid n_samples n_train
  then inl ValueError
  else
    let permutation := np_permutation random_state n_samples in
    let ind_test := take n_test permutation in
    let ind_train := take n_train (drop n_test permutation) in
    train ← safe_indexing arrays ind_train;
    test ← safe_indexing arrays ind_test;
    inr (train, test).

(** The two-stage split of one class, lines 103-114 of [copy_split]:
    (train, val, test). *)
Definition split_class `{RS : RandomSource} (cfg : config) (files : list path)
    : result (list path * list path * list path) :=
  '(train_files, temp) ←
    train_test_split files None (Some (TRAIN_RATIO cfg)) (RANDOM_SEED cfg);
  test_size ←
    (if Qeq_bool (TEST_RATIO cfg + VAL_RATIO cfg) 0 then inl ZeroDivisionError
     else inr (TEST_RATIO cfg / (TEST_RATIO cfg + VAL_RATIO cfg))%Q);
  '(val_files, test_files) ←
    train_test_split temp (Some test_size) None (RANDOM_SEED cfg);
  inr (train_files, val_files, test_files).


(** ** The world the scripts run in *)

(** The lines of standard output that carry a count or a verdict. *)
Inductive message :=
| WarnEmptyClass (cls : string)
| SplitCount (split_name cls : string) (split_count : nat)
| ClassCompleted (cls : string) (class_copied : nat)
| Done (total_copied total_to_copy : nat)
| WarnSplitMissing (split : string)
| VerifyCount (split cls : string) (count : nat)
| VerifySummary (total_files : nat)
| VerifySplitTotal (split : string) (split_total : nat)
| ErrorSourceCheck
| Cancelled
| ErrorNoImages
| Complete.

(** What is below [RAW_ROOT]: plain files, and directories with the names of
    their entries.  [None] stands for a root that does not exist. *)
Inductive raw_entry :=
| RawFile (name : string)
| RawDir (name : string) (children : list string).

Abbreviation raw_tree := (option (list raw_entry)).

Section World.
Context `{RS : RandomSource}.

(** [out_files] maps each file of the output tree to the source file whose
    bytes it holds; [moved_away] are the sources a move has removed. *)
Record world := World {
  out_dirs : gset path;
  out_files : gmap path path;
  moved_away : gset path;
  generator : rng;
  stdout : list message
}.

(** A script step: it ends with a value or an exception, in a new world. *)
Definition M (A : Type) : Type := world -> result A * world.

#[global] Instance M_ret : MRet M := fun A a w => (inr a, w).

#[global] Instance M_bind : MBind M := fun A B f m w =>
  match m w with
  | (inl e, w') => (inl e, w')
  | (inr a, w') => f a w'
  end.

Definition lift {A} (m : result A) : M A := fun w => (m, w).

End World.

(** [entries]: a dict, in insertion order, from class name to file list. *)
Abbreviation entries_dict := (list (string * list path)).

(** [sum(len(files) for files in entries.values())] *)
Definition total_files (entries : entries_dict) : nat :=
  sum_list ((fun kv => length kv.2) <$> entries).

Section Pipeline.
Context `{RS : RandomSource}.

Definition print (msg : message) : M unit :=
  fun w => (inr tt, World (out_dirs w) (out_files w) (moved_away w)
                          (generator w) (stdout w ++ [msg])).

(** [for x in l: body(x, acc)], the accumulator being the loop's counters. *)
Fixpoint for_each {A S} (l : list A) (body : A -> S -> M S) (acc : S) : M S :=
  match l with
  | [] => mret acc
  | x :: l' => acc' ← body x acc; for_each l' body acc'
  end.

(** *** [random], [os] and [shutil] *)

Definition seed_generator (a : Z) : M unit :=
  fun w => (inr tt, World (out_dirs w) (out_files w) (moved_away w)
                          (random_seed a) (stdout w)).

Definition randint (a b : Z) : M Z :=
  fun w =>
    let '(r, g) := random_randint a b (generator w) in
    (inr r, World (out_dirs w) (out_files w) (moved_away w) g (stdout w)).

Definition is_dir (w : world) (p : path) : bool := bool_decide (p ∈ out_dirs w).

Definition is_file (w : world) (p : path) : bool :=
  bool_decide (is_Some (out_files w !! p)).

Definition os_path_exists (p : path) : M bool :=
  fun w => (inr (is_dir w p || is_file w p), w).

Definition os_path_dirname (p : path) : path := take (length p - 1) p.

Definition os_listdir (d : path) : M (list string) :=
  fun w =>
    if is_dir w d
    then (inr (omap (child_name d) (elements (out_dirs w ∪ dom (out_files w)))), w)
    else if is_file w d then (inl NotADirectoryError, w)
    else (inl FileNotFoundError, w).

(** [Path(p).mkdir(parents=True, exist_ok=True)] *)
Definition mkdir_parents (p : path) : M unit :=
  fun w =>
    let ps := (fun k => take k p) <$> seq 1 (length p) in
    if existsb (is_file w) ps then (inl FileExistsError, w)
    else (inr tt, World (out_dirs w ∪ list_to_set ps) (out_files w)
                        (moved_away w) (generator w) (stdout w)).

(** Writing the bytes of [src] at [dst]: what is there is replaced. *)
Definition write_file (src dst : path) : M unit :=
  fun w =>
    if bool_decide (src ∈ moved_away w) then (inl FileNotFoundError, w)
    else if is_dir w dst then (inl IsADirectoryError, w)
    else if negb (is_dir w (os_path_dirname dst)) then (inl FileNotFoundError, w)
    else (inr tt, World (out_dirs w) (<[dst := src]> (out_files w))
                        (moved_away w) (generator w) (stdout w)).

(** [shutil.copy2(src, dst)]: a directory [dst] receives the file under the
    base name of [src]. *)
Definition shutil_copy2 (src dst : path) : M unit :=
  fun w =>
    let real_dst :=
      if is_dir w dst then os_path_join dst (os_path_basename src) else dst in
    write_file src real_dst w.

Definition remove_source (src : path) : M unit :=
  fun w => (inr tt, World (out_dirs w) (out_files w) (moved_away w ∪ {[src]})
                          (generator w) (stdout w)).

(** [shutil.move(src, dst)]: into a directory [dst] it refuses to replace an
    entry of the same name; otherwise the file is transferred and the source
    removed. *)
Definition shutil_move (src dst : path) : M unit :=
  fun w =>
    if is_dir w dst then
      let real_dst := os_path_join dst (os_path_basename src) in
      if is_dir w real_dst || is_file w real_dst then (inl FileExistsError, w)
      else (write_file src real_dst ;; remove_source src) w
    else (write_file src dst ;; remove_source src) w.

(** *** [ensure_dirs] *)

Definition ensure_dirs (base : path) : M unit :=
  for_each SPLITS (fun split _ =>
    for_each TARGET_CLASSES (fun cls _ =>
      mkdir_parents (os_path_join (os_path_join base split) cls)) tt) tt.

(** *** [collect_images_per_class] *)

(** [entries.setdefault(k, [])] *)
Fixpoint dict_setdefault (k : string) (d : entries_dict) : entries_dict :=
  match d with
  | [] => [(k, [])]
  | (k', v) :: d' =>
      if decide (k = k') then d else (k', v) :: dict_setdefault k d'
  end.

(** [entries[k].append(x)], for a key that is present. *)
Fixpoint dict_append (k : string) (x : path) (d : entries_dict) : entries_dict :=
  match d with
  | [] => []
  | (k', v) :: d' =>
      if decide (k = k') then (k', v ++ [x]) :: d'
      else (k', v) :: dict_append k x d'
  end.

(** [[d for d in os.listdir(raw_root) if os.path.isdir(...)]], with the
    listing of each. *)
Definition raw_dirs (entries : list raw_entry) : list (string * list string) :=
  omap (fun e => match e with
                 | RawDir name children => Some (name, children)
                 | RawFile _ => None
                 end) entries.

Definition scan_dir (raw_root : path) (d : string * list string)
    (entries : entries_dict) : entries_dict :=
  let '(src, listing) := d in
  let src_path := os_path_join raw_root src in
  let mapped := mapped_class src in
  let entries := dict_setdefault mapped entries in
  let image_files := filter (fun f => is_image_name f = true) listing in
  foldl (fun entries fname =>
           dict_append mapped (os_path_join src_path fname) entries)
        entries image_files.

Definition collect_images_per_class (raw_root : path) (raw : raw_tree)
    : entries_dict :=
  match raw with
  | None => []
  | Some listing =>
      foldl (fun entries d => scan_dir raw_root d entries) [] (raw_dirs listing)
  end.

(** *** [verify_output] *)

Definition verify_class (split_path : path) (split cls : string)
    (acc : nat * list (string * nat)) : M (nat * list (string * nat)) :=
  let '(total_files, class_counts) := acc in
  let cls_path := os_path_join split_path cls in
  present ← os_path_exists cls_path;
  if present : bool then
    listing ← os_listdir cls_path;
    let files := filter (fun f => is_image_name f = true) listing in
    let count := length files in
    (if Nat.ltb 0 count then print (VerifyCount split cls count) else mret tt) ;;
    mret (total_files + count, class_counts ++ [(split, count)])
  else mret acc.

Definition verify_split (out_root : path) (split : string)
    (acc : nat * list (string * nat)) : M (nat * list (string * nat)) :=
  let split_path := os_path_join out_root split in
  present ← os_path_exists split_path;
  if present : bool then
    for_each TARGET_CLASSES (verify_class split_path split) acc
  else print (WarnSplitMissing split) ;; mret acc.

Definition split_total (class_counts : list (string * nat)) (split : string) : nat :=
  sum_list ((fun kv => if decide (kv.1 = split) then kv.2 else 0) <$> class_counts).

Definition verify_output (out_root : path) : M nat :=
  acc ← for_each SPLITS (verify_split out_root) (0, []);
  let '(total_files, class_counts) := acc in
  print (VerifySummary total_files) ;;
  for_each SPLITS (fun split _ =>
    print (VerifySplitTotal split (split_total class_counts split))) tt ;;
  mret total_files.

(** *** [copy_split] *)

(** One pass of the inner loop, lines 134-148: where the file goes, the
    transfer, the two counters. *)
Definition transfer_file (cfg : config) (dest_dir src_file : path)
    (counters : nat * nat) : M (nat * nat) :=
  let '(class_copied, total_copied) := counters in
  let dst := os_path_join dest_dir (os_path_basename src_file) in
  taken ← os_path_exists dst;
  dst ← (if taken : bool then
            let '(base_name, ext) := splitext (os_path_basename src_file) in
            r ← randint 0 99999;
            mret (os_path_join dest_dir (base_name +:+ "_" +:+ pretty r +:+ ext))
          else mret dst);
  (if COPY_FILES cfg then shutil_copy2 src_file dst
   else shutil_move src_file dst) ;;
  mret (class_copied + 1, total_copied + 1).

Definition copy_one_split (cfg : config) (out_root : path) (cls : string)
    (split : string * list path) (counters : nat * nat) : M (nat * nat) :=
  let '(split_name, file_list) := split in
  let dest_dir := os_path_join (os_path_join out_root split_name) cls in
  print (SplitCount split_name cls (length file_list)) ;;
  for_each file_list (transfer_file cfg dest_dir) counters.

Definition copy_class (cfg : config) (out_root : path)
    (item : string * list path) (total_copied : nat) : M nat :=
  let '(cls, files) := item in
  if Nat.eqb (length files) 0 then
    print (WarnEmptyClass cls) ;; mret total_copied
  else
    parts ← lift (split_class cfg files);
    let '(train_files, val_files, test_files) := parts in
    let splits :=
      [("train", train_files); ("val", val_files); ("test", test_files)] in
    counters ← for_each splits (copy_one_split cfg out_root cls)
                         (0, total_copied);
    print (ClassCompleted cls counters.1) ;;
    mret counters.2.

Definition copy_split (cfg : config) (entries : entries_dict) (out_root : path)
    : M unit :=
  seed_generator (RANDOM_SEED cfg) ;;
  let total_to_copy := total_files entries in
  total_copied ← for_each entries (copy_class cfg out_root) 0;
  print (Done total_copied total_to_copy) ;;
  verify_output out_root ;;
  mret tt.

(** *** [check_source_directory] and the script body *)

Definition check_source_directory (raw : raw_tree) : bool :=
  match raw with
  | None => false
  | Some listing =>
      match raw_dirs listing with
      | [] => false
      | _ :: _ => true
      end
  end.

(** How the script ends: [exit(code)], or the end of the file. *)
Inductive outcome :=
| Exit (code : Z)
| EndOfScript.

(** The [__main__] block; [response] is the line typed at the prompt. *)
Definition main (cfg : config) (raw : raw_tree) (response : string) : M outcome :=
  if negb (check_source_directory raw) then
    print ErrorSourceCheck ;; mret (Exit 1)
  else if negb (String.eqb (str_lower response) "y") then
    print Cancelled ;; mret (Exit 0)
  else
    ensure_dirs (OUT_ROOT cfg) ;;
    let entries := collect_images_per_class (RAW_ROOT cfg) raw in
    match entries with
    | [] => print ErrorNoImages ;; mret (Exit 1)
    | _ :: _ =>
        copy_split cfg entries (OUT_ROOT cfg) ;;
        print Complete ;;
        mret EndOfScript
    end.

End Pipeline.

(** ** The balancing scripts, [fix_invalid_train.py] and [fix_invalid_val.py] *)

Inductive entry_kind :=
| RegularFile
| Directory.

(** The entries of the class directory the script works on, by name. *)
Abbreviation folder := (gmap string entry_kind).

Section Balancer.
Context `{RS : RandomSource}.

Definition folder_listdir (d : folder) : list string := elements (dom d).

(** [os.remove(os.path.join(folder, f))] *)
Definition os_remove (f : string) (d : folder) : result folder :=
  match d !! f with
  | Some RegularFile => inr (delete f d)
  | Some Directory => inl IsADirectoryError
  | None => inl FileNotFoundError
  end.

(** [for f in delete_files: os.remove(...)]; what was removed before an
    exception stays removed. *)
Fixpoint remove_files (delete_files : list string) (d : folder)
    : result unit * folder :=
  match delete_files with
  | [] => (inr tt, d)
  | f :: rest =>
      match os_remove f d with
      | inl e => (inl e, d)
      | inr d' => remove_files rest d'
      end
  end.

(** [random.sample(files, k)] with the generator in state [g]. *)
Definition random_sample {A} (population : list A) (k : nat) (g : rng)
    : result (list A) :=
  if Nat.ltb (length population) k then inl ValueError
  else safe_indexing population (random_sample_idx (length population) k g).1.

(** The script body for a directory and a cap.  The script never seeds
    [random]: [g] is the state the interpreter gave the generator at start-up.
    [None] is a directory that does not exist.  The result is the pair printed
    as "Before:" and "After:". *)
Definition balance (max_images : nat) (g : rng) (dir : option folder)
    : result (nat * nat) * option folder :=
  match dir with
  | None => (inl FileNotFoundError, None)
  | Some d =>
      let files := folder_listdir d in
      let before := length files in
      let '(r, d') :=
        if Nat.ltb max_images before then
          match random_sample files (before - max_images) g with
          | inl e => (inl e, d)
          | inr delete_files => remove_files delete_files d
          end
        else (inr tt, d) in
      match r with
      | inl e => (inl e, Some d')
      | inr _ => (inr (before, length (folder_listdir d')), Some d')
      end
  end.

Definition fix_invalid_train := balance 6000.

Definition fix_invalid_val := balance 1000.

End Balancer.

(** ** Vocabulary for the statements *)

Section Vocabulary.
Context `{RS : RandomSource}.

(** The world with another generator state. *)
Definition set_generator (g : rng) (w : world) : world :=
  World (out_dirs w) (out_files w) (moved_away w) g (stdout w).

(** What a run leaves behind for an observer: the trees and the output. *)
Definition observable (w : world) : gset path * gmap path path * gset path * list message :=
  (out_dirs w, out_files w, moved_away w, stdout w).

(** An empty output location, before the script has run. *)
Definition fresh_world (g : rng) : world := World ∅ ∅ ∅ g [].

(** Every world a step can end in is related to the one it started in. *)
Definition respects (R : relation world) {A} (m : M A) : Prop :=
  forall w, R w (m w).2.

(** The step neither reads nor writes the generator. *)
Definition generator_blind {A} (m : M A) : Prop :=
  forall w g, m (set_generator g w) = ((m w).1, set_generator g (m w).2).

Definition stdout_grows (w w' : world) : Prop := stdout w `prefix_of` stdout w'.

Definition same_dirs (w w' : world) : Prop := out_dirs w' = out_dirs w.

Definition same_sources (w w' : world) : Prop := moved_away w' = moved_away w.

Definition same_files (w w' : world) : Prop := out_files w' = out_files w.

(** The output tree is ready for [copy_split]: every class directory of the
    layout is there, none of them holds a sub-directory, and no source has
    been moved away. *)
Definition ready_for_copy (out_root : path) (w : world) : Prop :=
  (forall split cls, split ∈ SPLITS -> cls ∈ TARGET_CLASSES ->
     os_path_join (os_path_join out_root split) cls ∈ out_dirs w)
  /\ (forall split cls name, split ∈ SPLITS -> cls ∈ TARGET_CLASSES ->
        os_path_join (os_path_join (os_path_join out_root split) cls) name
        ∉ out_dirs w)
  /\ moved_away w = ∅.

(** The class is skipped, or its split returns. *)
Definition splittable (cfg : config) (files : list path) : Prop :=
  files = [] \/ exists parts, split_class cfg files = inr parts.

(** The directories [ensure_dirs base] asks for, parents included. *)
Definition layout_dirs (base : path) : gset path :=
  list_to_set
    (split ← SPLITS; cls ← TARGET_CLASSES;
     let p := os_path_join (os_path_join base split) cls in
     (fun k => take k p) <$> seq 1 (length p)).

Definition dirs_within (base : path) (w w' : world) : Prop :=
  out_dirs w ⊆ out_dirs w' /\ out_dirs w' ⊆ out_dirs w ∪ layout_dirs base.

End Vocabulary.


(** ** Sample inputs *)


(** An unmapped label directory holding five images. *)
Definition five_file_tree : raw_tree :=
  Some [RawDir "unknown_gesture"
          ["c0.jpg"; "c1.jpg"; "c2.jpg"; "c3.jpg"; "c4.jpg"]].

(** A bucket of six images. *)
Definition six_file_bucket : list path :=
  [["raw"; "like"; "a.jpg"]; ["raw"; "like"; "b.jpg"]; ["raw"; "like"; "c.jpg"];
   ["raw"; "like"; "d.jpg"]; ["raw"; "like"; "e.jpg"]; ["raw"; "like"; "f.jpg"]].

(** A label directory without any image. *)
Definition no_image_tree : raw_tree := Some [RawDir "like" ["notes.txt"]].


(** Two unmapped label directories that share the base name [x.jpg]; one
    also holds a file whose name has the shape of a renamed [x.jpg]. *)
Definition clash_tree : raw_tree :=
  Some [RawDir "call" ["w.jpg"; "x.jpg"];
        RawDir "dislike" ["x.jpg"; "x_42.jpg"; "y.jpg"; "z.jpg"]].


Definition two_file_folder : folder :=
  {[ "a.jpg" := RegularFile; "b.jpg" := RegularFile ]}.

(** An empty output location, with the counter generator at 0. *)
Definition empty_location : world (RS := counter_source) :=
  fresh_world (random_seed 0).

(** A class directory, the generator just seeded, where [x.jpg] and the name
    that [x.jpg] is renamed to at the next draw, 42, are both taken. *)
Definition crowded_world : world (RS := counter_source) :=
  World {[ ["data"; "train"; "Invalid"] ]}
        {[ ["data"; "train"; "Invalid"; "x.jpg"] := ["raw"; "call"; "x.jpg"];
           ["data"; "train"; "Invalid"; "x_42.jpg"] := ["raw"; "call"; "x_42.jpg"] ]}
        ∅ (random_seed 42) [].

(** * Properties *)

(** ** The two small generators obey the laws *)

Lemma rotate_Permutation {A} (n : nat) (l : list A) : Permutation (rotate n l) l.
Proof.
  unfold rotate. rewrite Permutation_app_comm. by rewrite take_drop.
Qed.

Lemma counter_source_laws : RandomSourceLaws counter_source.
Proof.
  split; simpl.
  - intros a b g Hab.
    pose proof (Z.mod_pos_bound (Z.of_nat g) (b - a + 1)) as Hm. lia.
  - intros n k g Hk.
    assert (Hnd : NoDup (rotate g (seq 0 n))).
    { rewrite rotate_Permutation. apply NoDup_seq. }
    split; [|split].
    + rewrite <- (take_drop k (rotate g (seq 0 n))) in Hnd.
      by apply NoDup_app in Hnd as [? _].
    + rewrite length_take, length_rotate, length_seq. lia.
    + apply Forall_take, Forall_forall. intros i Hi.
      apply elem_of_rotate, elem_of_seq in Hi. lia.
  - intros _ n. unfold reverse. symmetry. rewrite <- rev_alt. apply Permutation_rev.
Qed.

(** ** Indexing a list by a permutation of its positions *)

Section Indexing.
Context {A : Type}.
Implicit Types (a l : list A) (idx : list nat).

Lemma mapM_lookup_seq a k :
  mapM (fun i => (k ++ a) !! i) (seq (length k) (length a)) = Some a.
Proof.
  revert k. induction a as [|x a IH]; intros k; [done|].
  simpl. rewrite list_lookup_middle by done. simpl.
  specialize (IH (k ++ [x])).
  rewrite length_app in IH. simpl in IH. rewrite Nat.add_1_r in IH.
  rewrite <- (assoc_L (++)) in IH. simpl in IH. by rewrite IH.
Qed.

Lemma mapM_app_Some {B} (f : B -> option A) (l1 l2 : list B) k1 k2 :
  mapM f l1 = Some k1 -> mapM f l2 = Some k2 ->
  mapM f (l1 ++ l2) = Some (k1 ++ k2).
Proof.
  intros H1 H2. apply mapM_Some.
  apply Forall2_app; by apply mapM_Some.
Qed.

Lemma mapM_Permutation {B} (f : B -> option A) (l1 l2 : list B) k1 :
  Permutation l1 l2 -> mapM f l1 = Some k1 ->
  exists k2, mapM f l2 = Some k2 /\ Permutation k1 k2.
Proof.
  intros Hp. revert k1.
  induction Hp as [|x l1 l2 Hp IH|x y l|l1 l2 l3 Hp1 IH1 Hp2 IH2]; intros k1 Hk.
  - exists k1. done.
  - simpl in *. destruct (f x) as [b|]; [|done]. simpl in *.
    destruct (mapM f l1) as [k|] eqn:Hl1; [|done]. injection Hk as <-.
    destruct (IH k eq_refl) as (k2 & -> & Hk2). exists (b :: k2).
    split; [done|]. by apply Permutation_cons.
  - simpl in *. destruct (f y) as [b|]; [|done].
    destruct (f x) as [c|]; [|done]. simpl in *.
    destruct (mapM f l) as [k|]; [|done]. injection Hk as <-.
    exists (c :: b :: k). split; [done|]. apply perm_swap.
  - destruct (IH1 _ Hk) as (k2 & Hk2 & Hp12).
    destruct (IH2 _ Hk2) as (k3 & Hk3 & Hp23).
    exists k3. split; [done|]. by etrans.
Qed.

Lemma safe_indexing_ok a idx :
  Forall (fun i => i < length a) idx ->
  exists l, safe_indexing a idx = inr l /\ length l = length idx
            /\ mapM (fun i => a !! i) idx = Some l.
Proof.
  intros Hidx. unfold safe_indexing.
  destruct (mapM_is_Some_2 (fun i => a !! i) idx) as [l Hl].
  { eapply Forall_impl; [exact Hidx|]. intros i Hi. by apply lookup_lt_is_Some_2. }
  rewrite Hl. exists l. split; [done|]. split; [|done].
  symmetry. by eapply length_mapM.
Qed.

(** Splitting a permutation of the positions of [a] in two and indexing [a]
    by both parts gives all of [a] back, in some order. *)
Lemma index_split_Permutation a (perm : list nat) (n1 n2 : nat) l1 l2 :
  Permutation perm (seq 0 (length a)) ->
  n1 + n2 = length a ->
  mapM (fun i => a !! i) (take n2 (drop n1 perm)) = Some l2 ->
  mapM (fun i => a !! i) (take n1 perm) = Some l1 ->
  Permutation (l2 ++ l1) a.
Proof.
  intros Hperm Hn H2 H1.
  assert (Hlen : length perm = length a).
  { by rewrite Hperm, length_seq. }
  assert (Hall : mapM (fun i => a !! i) perm = Some (l1 ++ l2)).
  { rewrite <- (take_drop n1 perm) at 1.
    apply mapM_app_Some; [done|].
    rewrite <- H2. f_equal. rewrite take_ge; [done|].
    rewrite length_drop. lia. }
  destruct (mapM_Permutation _ _ _ _ Hperm Hall) as (k & Hk & Hp).
  pose proof (mapM_lookup_seq a []) as Hseq. simpl in Hseq.
  rewrite Hseq in Hk. simplify_eq.
  rewrite <- Hp. apply Permutation_app_comm.
Qed.

End Indexing.

(** ** The size rules of [train_test_split] *)

#[local] Arguments Qfloor : simpl never.
#[local] Arguments Qceiling : simpl never.

Lemma outside_unit_false (q : Q) :
  (0 < q)%Q -> (q < 1)%Q -> outside_unit q = false.
Proof.
  intros H0 H1. unfold outside_unit.
  apply orb_false_iff; split; apply not_true_iff_false; intros H;
    apply Qle_bool_iff in H; [apply (Qlt_not_le _ _ H0 H)|apply (Qlt_not_le _ _ H1 H)].
Qed.

Lemma Qfloor_mul_bounds (tr : Q) (z : Z) :
  (0 < tr)%Q -> (tr < 1)%Q -> (0 <= z)%Z ->
  (0 <= Qfloor (tr * inject_Z z))%Z /\
  (0 < z -> Qfloor (tr * inject_Z z) < z)%Z.
Proof.
  intros H0 H1 Hz. split.
  - change 0%Z with (Qfloor 0). apply Qfloor_resp_le.
    apply Qmult_le_0_compat; [by apply Qlt_le_weak|].
    change 0%Q with (inject_Z 0). by rewrite <- Zle_Qle.
  - intros Hpos. rewrite Zlt_Qlt.
    eapply Qle_lt_trans; [apply Qfloor_le|].
    rewrite <- (Qmult_1_l (inject_Z z)) at 2.
    apply Qmult_lt_compat_r; [|done].
    change 0%Q with (inject_Z 0). by rewrite <- Zlt_Qlt.
Qed.

Lemma Qceiling_mul_bounds (te : Q) (z : Z) :
  (0 < te)%Q -> (te < 1)%Q -> (0 < z)%Z ->
  (1 <= Qceiling (te * inject_Z z) <= z)%Z.
Proof.
  intros H0 H1 Hz.
  assert (Hzq : (0 < inject_Z z)%Q).
  { change 0%Q with (inject_Z 0). by rewrite <- Zlt_Qlt. }
  split.
  - assert (0 < Qceiling (te * inject_Z z))%Z; [|lia].
    rewrite Zlt_Qlt. eapply Qlt_le_trans; [|apply Qle_ceiling].
    change (inject_Z 0) with 0%Q. by apply Qmult_lt_0_compat.
  - rewrite <- (Qceiling_Z z) at 2. apply Qceiling_resp_le.
    rewrite <- (Qmult_1_l (inject_Z z)) at 2.
    apply Qmult_le_compat_r; by apply Qlt_le_weak.
Qed.

Lemma validate_train_size (n_samples : nat) (tr : Q) :
  (0 < tr)%Q -> (tr < 1)%Q ->
  let n := Z.of_nat n_samples in
  let k := Qfloor (tr * inject_Z n) in
  validate_shuffle_split n_samples None (Some tr) =
    if (k =? 0)%Z then inl ValueError
    else inr (Z.to_nat k, Z.to_nat (n - k)).
Proof.
  intros H0 H1 n k.
  unfold validate_shuffle_split, from_option, mbind, result_bind.
  rewrite outside_unit_false by done. fold n. fold k.
  replace (n <? k + (n - k))%Z with false; [done|].
  symmetry. apply Z.ltb_ge. lia.
Qed.

Lemma validate_test_size (n_samples : nat) (te : Q) :
  (0 < te)%Q -> (te < 1)%Q ->
  let n := Z.of_nat n_samples in
  let k := Qceiling (te * inject_Z n) in
  validate_shuffle_split n_samples (Some te) None =
    if (n - k =? 0)%Z then inl ValueError
    else inr (Z.to_nat (n - k), Z.to_nat k).
Proof.
  intros H0 H1 n k.
  unfold validate_shuffle_split, from_option, mbind, result_bind.
  rewrite outside_unit_false by done. fold n. fold k.
  replace (n <? n - k + k)%Z with false; [done|].
  symmetry. apply Z.ltb_ge. lia.
Qed.

Section Splitting.
Context `{RS : RandomSource} {HRS : RandomSourceLaws RS}.

(** Once the sizes are accepted, the two parts are the list itself,
    rearranged. *)
Lemma train_test_split_sizes {A} (arrays : list A) (te tr : option Q)
    (seed : Z) (n_train n_test : nat) :
  validate_shuffle_split (length arrays) te tr = inr (n_train, n_test) ->
  n_train + n_test = length arrays -> 0 < n_train -> 0 < n_test ->
  exists train test,
    train_test_split arrays te tr seed = inr (train, test)
    /\ length train = n_train /\ length test = n_test
    /\ Permutation (train ++ test) arrays.
Proof.
  intros Hv Hsum Htr Hte. unfold train_test_split. rewrite Hv. simpl.
  unfold int_size_invalid.
  assert (Hleb : forall k, 0 < k -> k < length arrays ->
            Nat.leb (length arrays) k || Nat.eqb k 0 = false).
  { intros k ? ?. apply orb_false_iff. split.
    - apply Nat.leb_gt. lia.
    - apply Nat.eqb_neq. lia. }
  rewrite !Hleb by lia. simpl.
  pose proof (np_permutation_perm seed (length arrays)) as Hperm.
  set (perm := np_permutation seed (length arrays)) in *.
  assert (Hlen : length perm = length arrays).
  { by rewrite Hperm, length_seq. }
  assert (Hall : Forall (fun i => i < length arrays) perm).
  { apply Forall_forall. intros i Hi. rewrite Hperm in Hi.
    apply elem_of_seq in Hi. lia. }
  destruct (safe_indexing_ok arrays (take n_train (drop n_test perm)))
    as (train & -> & Hltrain & Hmtrain).
  { by apply Forall_take, Forall_drop. }
  destruct (safe_indexing_ok arrays (take n_test perm))
    as (test & -> & Hltest & Hmtest).
  { by apply Forall_take. }
  simpl. exists train, test. split; [done|].
  rewrite Hltrain, Hltest, !length_take, length_drop.
  split; [lia|]. split; [lia|].
  eapply index_split_Permutation; [exact Hperm| |exact Hmtrain|exact Hmtest]. lia.
Qed.

(** [train_size] alone: [floor(train_size * n)] train samples, the rest test;
    an empty train set is refused. *)
Lemma train_test_split_train_size {A} (arrays : list A) (tr : Q) (seed : Z) :
  (0 < tr)%Q -> (tr < 1)%Q ->
  let n := Z.of_nat (length arrays) in
  let k := Qfloor (tr * inject_Z n) in
  (k = 0%Z -> train_test_split arrays None (Some tr) seed = inl ValueError) /\
  (k <> 0%Z ->
   exists train test,
     train_test_split arrays None (Some tr) seed = inr (train, test)
     /\ Z.of_nat (length train) = k /\ Z.of_nat (length test) = (n - k)%Z
     /\ Permutation (train ++ test) arrays).
Proof.
  intros H0 H1 n k.
  pose proof (validate_train_size (length arrays) tr H0 H1) as Hv.
  cbv zeta in Hv. fold n in Hv. fold k in Hv.
  destruct (Qfloor_mul_bounds tr n H0 H1 ltac:(lia)) as [Hk0 Hkn].
  fold k in Hk0, Hkn. split.
  - intros Hk. unfold train_test_split. rewrite Hv, Hk. done.
  - intros Hk. apply Z.eqb_neq in Hk as Hk'. rewrite Hk' in Hv.
    assert (0 < n)%Z as Hn.
    { destruct (decide (n = 0%Z)) as [Hz|]; [|lia].
      exfalso. apply Hk. unfold k. rewrite Hz.
      by rewrite Qmult_0_r. }
    specialize (Hkn Hn).
    destruct (train_test_split_sizes arrays None (Some tr) seed _ _ Hv)
      as (train & test & Heq & Hl1 & Hl2 & Hp); [lia..|].
    exists train, test. split; [done|]. split; [lia|]. split; [lia|done].
Qed.

(** [test_size] alone: [ceil(test_size * n)] test samples, the rest train;
    an empty train set is refused. *)
Lemma train_test_split_test_size {A} (arrays : list A) (te : Q) (seed : Z) :
  (0 < te)%Q -> (te < 1)%Q ->
  let n := Z.of_nat (length arrays) in
  let k := Qceiling (te * inject_Z n) in
  ((n - k)%Z = 0%Z ->
   train_test_split arrays (Some te) None seed = inl ValueError) /\
  ((n - k)%Z <> 0%Z ->
   exists train test,
     train_test_split arrays (Some te) None seed = inr (train, test)
     /\ Z.of_nat (length train) = (n - k)%Z /\ Z.of_nat (length test) = k
     /\ Permutation (train ++ test) arrays).
Proof.
  intros H0 H1 n k.
  pose proof (validate_test_size (length arrays) te H0 H1) as Hv.
  cbv zeta in Hv. fold n in Hv. fold k in Hv. split.
  - intros Hk. unfold train_test_split. rewrite Hv, Hk. done.
  - intros Hk. apply Z.eqb_neq in Hk as Hk'. rewrite Hk' in Hv.
    assert (0 < n)%Z as Hn.
    { destruct (decide (n = 0%Z)) as [Hz|]; [|lia].
      exfalso. apply Hk. unfold k. rewrite Hz.
      by rewrite Qmult_0_r. }
    destruct (Qceiling_mul_bounds te n H0 H1 Hn) as [Hk1 Hkn]. fold k in Hk1, Hkn.
    destruct (train_test_split_sizes arrays (Some te) None seed _ _ Hv)
      as (train & test & Heq & Hl1 & Hl2 & Hp); [lia..|].
    exists train, test. split; [done|]. split; [lia|]. split; [lia|done].
Qed.

End Splitting.

(** ** The two-stage split of a class *)

Lemma test_fraction_unit (va te : Q) :
  (0 < va)%Q -> (0 < te)%Q ->
  (0 < te / (te + va))%Q /\ (te / (te + va) < 1)%Q.
Proof.
  intros Hva Hte.
  assert (Hsum : (0 < te + va)%Q).
  { rewrite <- (Qplus_0_l 0). by apply Qplus_lt_le_compat; [|apply Qlt_le_weak]. }
  split.
  - apply Qlt_shift_div_l; [done|]. by rewrite Qmult_0_l.
  - apply Qlt_shift_div_r; [done|]. rewrite Qmult_1_l.
    rewrite <- (Qplus_0_r te) at 1. by apply Qplus_lt_r.
Qed.

Lemma script_train_count (z : Z) :
  Qfloor (TRAIN_RATIO script_config * inject_Z z) = (4 * z / 5)%Z.
Proof.
  unfold Qfloor. simpl. Z.div_mod_to_equations. lia.
Qed.

Lemma script_test_count (z : Z) :
  Qceiling (TEST_RATIO script_config
            / (TEST_RATIO script_config + VAL_RATIO script_config)
            * inject_Z z) = ((z + 1) / 2)%Z.
Proof.
  unfold Qceiling, Qfloor. simpl. Z.div_mod_to_equations. lia.
Qed.

Section SplitClass.
Context `{RS : RandomSource} {HRS : RandomSourceLaws RS}.

(** Whatever the three ratios add up to: [floor(train * n)] files for train,
    [ceil(test / (test + val) * m)] of the [m] others for test, the rest for
    val; an empty train or val part is a [ValueError]. *)
Lemma split_class_sizes (cfg : config) (files : list path) :
  (0 < TRAIN_RATIO cfg)%Q -> (TRAIN_RATIO cfg < 1)%Q ->
  (0 < VAL_RATIO cfg)%Q -> (0 < TEST_RATIO cfg)%Q ->
  let n := Z.of_nat (length files) in
  let n_train := Qfloor (TRAIN_RATIO cfg * inject_Z n) in
  let m := (n - n_train)%Z in
  let n_test :=
    Qceiling (TEST_RATIO cfg / (TEST_RATIO cfg + VAL_RATIO cfg) * inject_Z m) in
  (n_train = 0%Z \/ (m - n_test)%Z = 0%Z ->
   split_class cfg files = inl ValueError) /\
  (n_train <> 0%Z -> (m - n_test)%Z <> 0%Z ->
   exists train val test,
     split_class cfg files = inr (train, val, test)
     /\ Z.of_nat (length train) = n_train
     /\ Z.of_nat (length val) = (m - n_test)%Z
     /\ Z.of_nat (length test) = n_test
     /\ Permutation (train ++ val ++ test) files).
Proof.
  intros Htr0 Htr1 Hva Hte n n_train m n_test.
  destruct (test_fraction_unit _ _ Hva Hte) as [Hf0 Hf1].
  assert (Hsum : Qeq_bool (TEST_RATIO cfg + VAL_RATIO cfg) 0 = false).
  { apply not_true_iff_false. intros H%Qeq_bool_eq.
    assert (0 < TEST_RATIO cfg + VAL_RATIO cfg)%Q as Hlt.
    { rewrite <- (Qplus_0_l 0). by apply Qplus_lt_le_compat; [|apply Qlt_le_weak]. }
    rewrite H in Hlt. by apply Qlt_irrefl in Hlt. }
  destruct (train_test_split_train_size files (TRAIN_RATIO cfg)
              (RANDOM_SEED cfg) Htr0 Htr1) as [Hzero Hpos].
  fold n in Hzero, Hpos. fold n_train in Hzero, Hpos.
  destruct (decide (n_train = 0%Z)) as [Hnt|Hnt].
  { split; [|done]. intros _. unfold split_class. by rewrite (Hzero Hnt). }
  destruct (Hpos Hnt) as (train & temp & Heq1 & Hl1 & Hl2 & Hp1).
  destruct (train_test_split_test_size temp
              (TEST_RATIO cfg / (TEST_RATIO cfg + VAL_RATIO cfg))
              (RANDOM_SEED cfg) Hf0 Hf1) as [Hzero2 Hpos2].
  rewrite Hl2 in Hzero2, Hpos2. fold m in Hzero2, Hpos2.
  fold n_test in Hzero2, Hpos2.
  assert (Hunfold : split_class cfg files =
            '(val_files, test_files) ←
              train_test_split temp
                (Some (TEST_RATIO cfg / (TEST_RATIO cfg + VAL_RATIO cfg))%Q)
                None (RANDOM_SEED cfg);
            inr (train, val_files, test_files)).
  { unfold split_class. rewrite Heq1. simpl. by rewrite Hsum. }
  split.
  - intros [?|Hm]; [done|]. rewrite Hunfold. by rewrite (Hzero2 Hm).
  - intros _ Hm. destruct (Hpos2 Hm) as (val & test & Heq2 & Hl3 & Hl4 & Hp2).
    exists train, val, test. rewrite Hunfold, Heq2. split; [done|].
    split; [done|]. split; [done|]. split; [done|].
    by rewrite Hp2.
Qed.

(** The script's ratios: train [4n/5], val [m/2], test [(m+1)/2] where
    [m = n - 4n/5], for six files or more; fewer files are refused. *)
Lemma split_class_script (files : list path) :
  let n := length files in
  (1 <= n <= 5 -> split_class script_config files = inl ValueError) /\
  (6 <= n ->
   exists train val test,
     split_class script_config files = inr (train, val, test)
     /\ length train = 4 * n / 5
     /\ length val = (n - 4 * n / 5) / 2
     /\ length test = (n - 4 * n / 5 + 1) / 2
     /\ Permutation (train ++ val ++ test) files).
Proof.
  intros n.
  destruct (split_class_sizes script_config files) as [Hbad Hgood]; try done.
  rewrite script_train_count in Hbad, Hgood.
  rewrite script_test_count in Hbad, Hgood. fold n in Hbad, Hgood.
  split.
  - intros Hn. apply Hbad. Z.div_mod_to_equations. lia.
  - intros Hn.
    destruct Hgood as (train & val & test & Heq & H1 & H2 & H3 & Hp).
    { Z.div_mod_to_equations. lia. }
    { Z.div_mod_to_equations. lia. }
    exists train, val, test. split; [done|].
    pose proof (Nat.div_mod_eq (4 * n) 5).
    pose proof (Nat.mod_upper_bound (4 * n) 5).
    pose proof (Nat.div_mod_eq (n - 4 * n / 5) 2).
    pose proof (Nat.mod_upper_bound (n - 4 * n / 5) 2).
    pose proof (Nat.div_mod_eq (n - 4 * n / 5 + 1) 2).
    pose proof (Nat.mod_upper_bound (n - 4 * n / 5 + 1) 2).
    split; [|split; [|split; [|done]]]; Z.div_mod_to_equations; lia.
Qed.

End SplitClass.

(** ** Steps of the script and the relations they keep *)

Create HintDb steps discriminated.

Section Steps.
Context `{RS : RandomSource}.

Lemma bind_run {A B} (m : M A) (f : A -> M B) (w : world) :
  (m ≫= f) w =
    match m w with
    | (inl e, w') => (inl e, w')
    | (inr a, w') => f a w'
    end.
Proof. done. Qed.

Lemma respects_ret (R : relation world) `{!Reflexive R} {A} (a : A) :
  respects R (mret a : M A).
Proof. intros w. simpl. reflexivity. Qed.

Lemma respects_lift (R : relation world) `{!Reflexive R} {A} (m : result A) :
  respects R (lift m).
Proof. intros w. simpl. reflexivity. Qed.

Lemma respects_bind (R : relation world) `{!Transitive R} {A B}
    (m : M A) (f : A -> M B) :
  respects R m -> (forall a, respects R (f a)) -> respects R (m ≫= f).
Proof.
  intros Hm Hf w. rewrite bind_run. specialize (Hm w).
  destruct (m w) as [[e|a] w']; simpl in *; [done|].
  etrans; [exact Hm|]. apply Hf.
Qed.

Lemma respects_for_each (R : relation world) `{!PreOrder R} {A S}
    (l : list A) (body : A -> S -> M S) (acc : S) :
  (forall x acc, x ∈ l -> respects R (body x acc)) ->
  respects R (for_each l body acc).
Proof.
  revert acc. induction l as [|x l IH]; intros acc Hbody; simpl.
  - apply respects_ret. apply _.
  - apply respects_bind; [apply _| |].
    + apply Hbody. by left.
    + intros acc'. apply IH. intros y acc'' Hy. apply Hbody. by right.
Qed.

#[global] Instance stdout_grows_preorder : PreOrder stdout_grows.
Proof.
  split.
  - intros w. unfold stdout_grows. done.
  - intros w1 w2 w3. unfold stdout_grows. by etrans.
Qed.

#[global] Instance same_dirs_preorder : PreOrder same_dirs.
Proof.
  split.
  - by intros w.
  - intros w1 w2 w3. unfold same_dirs. congruence.
Qed.

#[global] Instance same_files_preorder : PreOrder same_files.
Proof.
  split.
  - by intros w.
  - intros w1 w2 w3. unfold same_files. congruence.
Qed.

#[global] Instance same_sources_preorder : PreOrder same_sources.
Proof.
  split.
  - by intros w.
  - intros w1 w2 w3. unfold same_sources. congruence.
Qed.

#[global] Instance dirs_within_preorder (base : path) : PreOrder (dirs_within base).
Proof.
  split.
  - intros w. unfold dirs_within. split; [done|]. apply union_subseteq_l.
  - intros w1 w2 w3. unfold dirs_within. intros [H1 H2] [H3 H4]. split.
    + by etrans.
    + etrans; [exact H4|]. apply union_least; [done|]. apply union_subseteq_r.
Qed.

End Steps.

(** The primitives, opened up and settled case by case. *)
Ltac primitive_step :=
  intros w;
  unfold print, seed_generator, randint, os_path_exists, os_listdir,
    write_file, shutil_copy2, remove_source, shutil_move;
  rewrite ?bind_run;
  unfold write_file, remove_source;
  repeat case_match; simplify_eq/=;
  unfold stdout_grows, same_dirs, same_sources, same_files; simpl;
  try done; try (by apply prefix_app_r).

(** A compound step: follow its binds, loops and branches. *)
Ltac compound_step R :=
  repeat first
    [ solve [auto with steps]
    | simple apply (respects_ret R)
    | simple apply (respects_lift R)
    | simple apply (respects_for_each R); intros ? ? ?
    | simple apply (respects_bind R); [|intros ?]
    | match goal with
      | |- respects _ (match ?x with _ => _ end) => destruct x
      end ].

Section StepLemmas.
Context `{RS : RandomSource}.

Lemma print_grows msg : respects stdout_grows (print msg).
Proof. primitive_step. Qed.
Lemma seed_generator_grows a : respects stdout_grows (seed_generator a).
Proof. primitive_step. Qed.
Lemma randint_grows a b : respects stdout_grows (randint a b).
Proof. primitive_step. Qed.
Lemma os_path_exists_grows p : respects stdout_grows (os_path_exists p).
Proof. primitive_step. Qed.
Lemma os_listdir_grows d : respects stdout_grows (os_listdir d).
Proof. primitive_step. Qed.
Lemma shutil_copy2_grows src dst : respects stdout_grows (shutil_copy2 src dst).
Proof. primitive_step. Qed.
Lemma shutil_move_grows src dst : respects stdout_grows (shutil_move src dst).
Proof. primitive_step. Qed.

Lemma print_same_dirs msg : respects same_dirs (print msg).
Proof. primitive_step. Qed.
Lemma seed_generator_same_dirs a : respects same_dirs (seed_generator a).
Proof. primitive_step. Qed.
Lemma randint_same_dirs a b : respects same_dirs (randint a b).
Proof. primitive_step. Qed.
Lemma os_path_exists_same_dirs p : respects same_dirs (os_path_exists p).
Proof. primitive_step. Qed.
Lemma os_listdir_same_dirs d : respects same_dirs (os_listdir d).
Proof. primitive_step. Qed.
Lemma shutil_copy2_same_dirs src dst : respects same_dirs (shutil_copy2 src dst).
Proof. primitive_step. Qed.
Lemma shutil_move_same_dirs src dst : respects same_dirs (shutil_move src dst).
Proof. primitive_step. Qed.

Lemma print_same_files msg : respects same_files (print msg).
Proof. primitive_step. Qed.
Lemma seed_generator_same_files a : respects same_files (seed_generator a).
Proof. primitive_step. Qed.
Lemma os_path_exists_same_files p : respects same_files (os_path_exists p).
Proof. primitive_step. Qed.
Lemma os_listdir_same_files d : respects same_files (os_listdir d).
Proof. primitive_step. Qed.

Lemma print_same_sources msg : respects same_sources (print msg).
Proof. primitive_step. Qed.
Lemma seed_generator_same_sources a : respects same_sources (seed_generator a).
Proof. primitive_step. Qed.
Lemma randint_same_sources a b : respects same_sources (randint a b).
Proof. primitive_step. Qed.
Lemma os_path_exists_same_sources p : respects same_sources (os_path_exists p).
Proof. primitive_step. Qed.
Lemma os_listdir_same_sources d : respects same_sources (os_listdir d).
Proof. primitive_step. Qed.
Lemma shutil_copy2_same_sources src dst :
  respects same_sources (shutil_copy2 src dst).
Proof. primitive_step. Qed.

End StepLemmas.

#[global] Hint Resolve print_grows seed_generator_grows randint_grows
  os_path_exists_grows os_listdir_grows shutil_copy2_grows shutil_move_grows
  print_same_dirs seed_generator_same_dirs randint_same_dirs
  os_path_exists_same_dirs os_listdir_same_dirs shutil_copy2_same_dirs
  shutil_move_same_dirs
  print_same_sources seed_generator_same_sources randint_same_sources
  os_path_exists_same_sources os_listdir_same_sources
  shutil_copy2_same_sources
  print_same_files seed_generator_same_files os_path_exists_same_files
  os_listdir_same_files : steps.

Section CompoundSteps.
Context `{RS : RandomSource}.

Lemma verify_output_grows out_root : respects stdout_grows (verify_output out_root).
Proof.
  unfold verify_output, verify_split, verify_class.
  compound_step stdout_grows.
Qed.

Lemma verify_output_same_dirs out_root : respects same_dirs (verify_output out_root).
Proof.
  unfold verify_output, verify_split, verify_class.
  compound_step same_dirs.
Qed.

Lemma transfer_file_same_dirs cfg dest_dir src_file counters :
  respects same_dirs (transfer_file cfg dest_dir src_file counters).
Proof.
  unfold transfer_file. compound_step same_dirs.
Qed.

Lemma transfer_file_same_sources cfg dest_dir src_file counters :
  COPY_FILES cfg = true ->
  respects same_sources (transfer_file cfg dest_dir src_file counters).
Proof.
  intros Hcopy. unfold transfer_file. rewrite Hcopy.
  compound_step same_sources.
Qed.

Lemma verify_output_same_sources out_root :
  respects same_sources (verify_output out_root).
Proof.
  unfold verify_output, verify_split, verify_class.
  compound_step same_sources.
Qed.

Lemma verify_output_same_files out_root :
  respects same_files (verify_output out_root).
Proof.
  unfold verify_output, verify_split, verify_class.
  compound_step same_files.
Qed.

(** With nothing but empty classes, [copy_split] writes no file. *)
Lemma copy_split_empty_same_files cfg entries out_root :
  Forall (fun kv => kv.2 = []) entries ->
  respects same_files (copy_split cfg entries out_root).
Proof.
  intros Hempty. unfold copy_split. pose proof verify_output_same_files.
  apply respects_bind; [apply _|auto with steps|]. intros _.
  apply respects_bind; [apply _| |].
  - apply respects_for_each; [apply _|]. intros [cls files] total Hin.
    rewrite Forall_forall in Hempty. specialize (Hempty _ Hin).
    simpl in Hempty. subst files. unfold copy_class. simpl.
    compound_step same_files.
  - intros total. compound_step same_files.
Qed.

Lemma copy_split_same_dirs cfg entries out_root :
  respects same_dirs (copy_split cfg entries out_root).
Proof.
  unfold copy_split, copy_class, copy_one_split.
  pose proof transfer_file_same_dirs. pose proof verify_output_same_dirs.
  compound_step same_dirs.
Qed.

End CompoundSteps.

(** ** Steps that end without an exception *)

Section Returns.
Context `{RS : RandomSource}.

Lemma bind_inr {A B} (m : M A) (f : A -> M B) (w w' : world) (b : B) :
  (m ≫= f) w = (inr b, w') ->
  exists a w1, m w = (inr a, w1) /\ f a w1 = (inr b, w').
Proof.
  rewrite bind_run. destruct (m w) as [[e|a] w1]; [done|]. eauto.
Qed.

(** A loop that returns has added up what each pass adds. *)
Lemma for_each_count {A S} (f : S -> nat) (g : A -> nat)
    (l : list A) (body : A -> S -> M S) (acc acc' : S) (w w' : world) :
  (forall x a v a' v', x ∈ l -> body x a v = (inr a', v') -> f a' = f a + g x) ->
  for_each l body acc w = (inr acc', w') ->
  f acc' = f acc + sum_list (g <$> l).
Proof.
  revert acc w. induction l as [|x l IH]; intros acc w Hbody Hrun.
  - injection Hrun as <- <-. cbn. lia.
  - cbn in Hrun. apply bind_inr in Hrun as (a1 & w1 & Hx & Hrest).
    apply Hbody in Hx; [|by left].
    apply IH in Hrest; [rewrite fmap_cons; cbn; lia|].
    intros y a v a' v' Hy. apply Hbody. by right.
Qed.

(** A loop that returns leaves, for each element, what its pass established,
    provided later steps keep it. *)
Lemma for_each_establishes {A S} (R : relation world) `{!PreOrder R}
    (P : A -> world -> Prop)
    (l : list A) (body : A -> S -> M S) (acc acc' : S) (w w' : world) :
  (forall x a, x ∈ l -> respects R (body x a)) ->
  (forall x v v', R v v' -> P x v -> P x v') ->
  (forall x a v a' v', x ∈ l -> body x a v = (inr a', v') -> P x v') ->
  for_each l body acc w = (inr acc', w') ->
  forall x, x ∈ l -> P x w'.
Proof.
  intros Hresp Hkeep.
  revert acc w Hresp.
  induction l as [|y l IH]; intros acc w Hresp Hbody Hrun x Hx.
  - by apply elem_of_nil in Hx.
  - simpl in Hrun. apply bind_inr in Hrun as (a1 & w1 & Hy & Hrest).
    apply elem_of_cons in Hx as [->|Hx].
    + eapply Hkeep; [|eapply Hbody; [by left|exact Hy]].
      assert (Hrest' : respects R (for_each l body a1)).
      { apply respects_for_each; [apply _|].
        intros z a Hz. apply Hresp. by right. }
      specialize (Hrest' w1). by rewrite Hrest in Hrest'.
    + eapply IH; [| |exact Hrest|exact Hx].
      * intros z a Hz. apply Hresp. by right.
      * intros z a v a' v' Hz. apply Hbody. by right.
Qed.

Lemma transfer_file_counts cfg dest_dir src_file counters counters' w w' :
  transfer_file cfg dest_dir src_file counters w = (inr counters', w') ->
  counters' = (counters.1 + 1, counters.2 + 1).
Proof.
  unfold transfer_file. destruct counters as [c t]. intros Hrun.
  apply bind_inr in Hrun as (taken & w1 & _ & Hrun).
  apply bind_inr in Hrun as (dst & w2 & _ & Hrun).
  apply bind_inr in Hrun as (u & w3 & _ & Hrun).
  by injection Hrun as <- <-.
Qed.

Lemma copy_one_split_counts cfg out_root cls split counters counters' w w' :
  copy_one_split cfg out_root cls split counters w = (inr counters', w') ->
  counters' = (counters.1 + length split.2, counters.2 + length split.2).
Proof.
  unfold copy_one_split. destruct split as [split_name file_list].
  intros Hrun. apply bind_inr in Hrun as (u & w1 & _ & Hrun).
  assert (Hone : sum_list ((fun _ : path => 1) <$> file_list) = length file_list).
  { clear Hrun. induction file_list as [|? ? IH]; [done|]. cbn. by f_equal. }
  assert (H1 : counters'.1 = counters.1 + sum_list ((fun _ : path => 1) <$> file_list)).
  { eapply (for_each_count fst); [|exact Hrun].
    intros x a v a' v' _ Hx. by rewrite (transfer_file_counts _ _ _ _ _ _ _ Hx). }
  assert (H2 : counters'.2 = counters.2 + sum_list ((fun _ : path => 1) <$> file_list)).
  { eapply (for_each_count snd); [|exact Hrun].
    intros x a v a' v' _ Hx. by rewrite (transfer_file_counts _ _ _ _ _ _ _ Hx). }
  rewrite Hone in H1, H2. simpl. destruct counters'. simpl in *. congruence.
Qed.

End Returns.

(** ** What a split that returns has returned *)

Lemma validate_shuffle_split_sum (n : nat) (te tr : option Q) (a b : nat) :
  te = None \/ tr = None ->
  validate_shuffle_split n te tr = inr (a, b) ->
  0 < a -> 0 < b -> a + b = n.
Proof.
  unfold validate_shuffle_split, mbind, result_bind, from_option.
  intros Hnone Hv Ha Hb.
  destruct te as [te|], tr as [tr|]; [by destruct Hnone|..];
    repeat case_match; simplify_eq; lia.
Qed.

Section Partition.
Context `{RS : RandomSource} {HRS : RandomSourceLaws RS}.

Lemma train_test_split_partition {A} (arrays train test : list A)
    (te tr : option Q) (seed : Z) :
  te = None \/ tr = None ->
  train_test_split arrays te tr seed = inr (train, test) ->
  Permutation (train ++ test) arrays.
Proof.
  intros Hnone Hrun. pose proof Hrun as Hrun'.
  unfold train_test_split in Hrun.
  destruct (validate_shuffle_split (length arrays) te tr)
    as [e|[n_train n_test]] eqn:Hv; [done|].
  simpl in Hrun.
  destruct (int_size_invalid (length arrays) n_test
            || int_size_invalid (length arrays) n_train) eqn:Hint; [done|].
  clear Hrun. apply orb_false_iff in Hint as [H1 H2].
  unfold int_size_invalid in H1, H2.
  apply orb_false_iff in H1 as [_ H1%Nat.eqb_neq].
  apply orb_false_iff in H2 as [_ H2%Nat.eqb_neq].
  pose proof (validate_shuffle_split_sum _ _ _ _ _ Hnone Hv) as Hsum.
  destruct (train_test_split_sizes arrays te tr seed _ _ Hv)
    as (train' & test' & Heq & _ & _ & Hp); [lia..|].
  rewrite Heq in Hrun'. by simplify_eq.
Qed.

Lemma split_class_partition (cfg : config) (files train val test : list path) :
  split_class cfg files = inr (train, val, test) ->
  Permutation (train ++ val ++ test) files.
Proof.
  unfold split_class. intros Hrun.
  destruct (train_test_split files None (Some (TRAIN_RATIO cfg)) (RANDOM_SEED cfg))
    as [e|[train_files temp]] eqn:H1; [done|].
  simpl in Hrun.
  destruct (Qeq_bool (TEST_RATIO cfg + VAL_RATIO cfg) 0); [done|].
  simpl in Hrun.
  destruct (train_test_split temp
              (Some (TEST_RATIO cfg / (TEST_RATIO cfg + VAL_RATIO cfg))%Q) None
              (RANDOM_SEED cfg)) as [e|[val_files test_files]] eqn:H2; [done|].
  simpl in Hrun. simplify_eq.
  apply train_test_split_partition in H1; [|by left].
  apply train_test_split_partition in H2; [|by right].
  by rewrite H2.
Qed.

Lemma copy_class_counts cfg out_root item total_copied total_copied' w w' :
  copy_class cfg out_root item total_copied w = (inr total_copied', w') ->
  total_copied' = total_copied + length item.2.
Proof.
  unfold copy_class. destruct item as [cls files]. simpl.
  destruct (Nat.eqb (length files) 0) eqn:Hn.
  - intros Hrun. apply bind_inr in Hrun as (u & w1 & _ & Hrun).
    injection Hrun as <- <-. apply Nat.eqb_eq in Hn. lia.
  - intros Hrun. apply bind_inr in Hrun as (parts & w1 & Hsplit & Hrun).
    unfold lift in Hsplit. injection Hsplit as Hsplit <-.
    destruct parts as [[train_files val_files] test_files].
    apply split_class_partition in Hsplit.
    apply bind_inr in Hrun as (counters & w2 & Hloop & Hrun).
    apply bind_inr in Hrun as (u & w3 & _ & Hrun).
    injection Hrun as <- <-.
    cbn [for_each] in Hloop.
    apply bind_inr in Hloop as (c1 & v1 & Hc1 & Hloop).
    apply bind_inr in Hloop as (c2 & v2 & Hc2 & Hloop).
    apply bind_inr in Hloop as (c3 & v3 & Hc3 & Hloop).
    injection Hloop as <- <-.
    apply (copy_one_split_counts cfg out_root cls ("train", train_files)) in Hc1.
    apply (copy_one_split_counts cfg out_root cls ("val", val_files)) in Hc2.
    apply (copy_one_split_counts cfg out_root cls ("test", test_files)) in Hc3.
    subst. simpl.
    apply Permutation_length in Hsplit. rewrite !length_app in Hsplit. lia.
Qed.

(** The counter the loop of [copy_split] ends with is the scanned total. *)
Lemma copy_loop_total cfg out_root entries total_copied w w' :
  for_each entries (copy_class cfg out_root) 0 w = (inr total_copied, w') ->
  total_copied = total_files entries.
Proof.
  intros Hrun. unfold total_files.
  apply (for_each_count id (fun kv => length kv.2)) in Hrun; [done|].
  intros x a v a' v' _ Hx. by apply copy_class_counts in Hx.
Qed.

Lemma copy_split_done cfg entries out_root w w' :
  copy_split cfg entries out_root w = (inr tt, w') ->
  Done (total_files entries) (total_files entries) ∈ stdout w'.
Proof.
  unfold copy_split. intros Hrun.
  apply bind_inr in Hrun as (u & w1 & _ & Hrun).
  apply bind_inr in Hrun as (total & w2 & Hloop & Hrun).
  apply copy_loop_total in Hloop as ->.
  apply bind_inr in Hrun as (u1 & w3 & Hprint & Hrun).
  apply bind_inr in Hrun as (u2 & w4 & Hverify & Hrun).
  injection Hrun as <-.
  pose proof (verify_output_grows out_root w3) as Hgrows.
  rewrite Hverify in Hgrows. simpl in Hgrows.
  eapply elem_of_prefix; [|exact Hgrows].
  unfold print in Hprint. simplify_eq. simpl.
  apply elem_of_app. right. apply list_elem_of_singleton. done.
Qed.

End Partition.

(** ** Labels, buckets and the directory layout *)

Lemma mapped_class_target (src : string) : mapped_class src ∈ TARGET_CLASSES.
Proof.
  unfold mapped_class.
  destruct (map_to_command !! str_lower src) as [c|] eqn:Hc; simpl.
  - unfold map_to_command in Hc. apply elem_of_list_to_map_2 in Hc.
    apply list_elem_of_In in Hc. apply list_elem_of_In. simpl in *.
    repeat (destruct Hc as [Hc|Hc]; [injection Hc as _ <-; tauto|]). done.
  - apply list_elem_of_In. simpl. tauto.
Qed.

Lemma dict_setdefault_keys (P : string -> Prop) (k : string) (d : entries_dict) :
  P k -> Forall (fun kv => P kv.1) d ->
  Forall (fun kv => P kv.1) (dict_setdefault k d).
Proof.
  intros Hk. induction d as [|[k' v] d IH]; intros Hd; simpl.
  - by repeat constructor.
  - case_decide; [done|]. inversion_clear Hd. constructor; [done|]. by apply IH.
Qed.

Lemma dict_append_keys (P : string -> Prop) (k : string) (x : path)
    (d : entries_dict) :
  Forall (fun kv => P kv.1) d -> Forall (fun kv => P kv.1) (dict_append k x d).
Proof.
  induction d as [|[k' v] d IH]; intros Hd; [done|].
  cbn [dict_append]. inversion_clear Hd.
  case_decide; constructor; auto.
Qed.

Lemma scan_dir_keys (raw_root : path) (d : string * list string)
    (entries : entries_dict) :
  Forall (fun kv => kv.1 ∈ TARGET_CLASSES) entries ->
  Forall (fun kv => kv.1 ∈ TARGET_CLASSES) (scan_dir raw_root d entries).
Proof.
  intros Hentries. unfold scan_dir. destruct d as [src listing].
  pose proof (dict_setdefault_keys (fun c => c ∈ TARGET_CLASSES) _ _
                (mapped_class_target src) Hentries) as Hset.
  revert Hset. generalize (dict_setdefault (mapped_class src) entries).
  induction (filter (fun f => is_image_name f = true) listing) as [|f fs IH];
    intros acc Hacc; simpl; [done|].
  apply IH. by apply (dict_append_keys (fun c => c ∈ TARGET_CLASSES)).
Qed.

Lemma collect_images_keys (raw_root : path) (raw : raw_tree) :
  Forall (fun kv => kv.1 ∈ TARGET_CLASSES) (collect_images_per_class raw_root raw).
Proof.
  unfold collect_images_per_class. destruct raw as [listing|]; [|done].
  assert (Hnil : Forall (fun kv : string * list path => kv.1 ∈ TARGET_CLASSES) [])
    by done.
  revert Hnil. generalize ([] : entries_dict).
  induction (raw_dirs listing) as [|d ds IH]; intros acc Hacc; simpl; [done|].
  apply IH. by apply scan_dir_keys.
Qed.

Section Layout.
Context `{RS : RandomSource}.

Lemma mkdir_parents_creates (p : path) (w w' : world) :
  p <> [] -> mkdir_parents p w = (inr tt, w') -> p ∈ out_dirs w'.
Proof.
  unfold mkdir_parents. intros Hp Hrun. case_match; [done|]. simplify_eq. simpl.
  apply elem_of_union. right. apply elem_of_list_to_set.
  apply list_elem_of_fmap. exists (length p). split; [by rewrite firstn_all|].
  apply elem_of_seq. destruct p; [done|]. simpl. lia.
Qed.

Lemma mkdir_parents_within (base : path) (split cls : string) :
  split ∈ SPLITS -> cls ∈ TARGET_CLASSES ->
  respects (dirs_within base)
    (mkdir_parents (os_path_join (os_path_join base split) cls)).
Proof.
  intros Hs Hc w. unfold mkdir_parents. case_match; simpl.
  - reflexivity.
  - unfold dirs_within. simpl. split; [apply union_subseteq_l|].
    apply union_mono_l. intros q Hq. apply elem_of_list_to_set in Hq.
    unfold layout_dirs. apply elem_of_list_to_set.
    apply list_elem_of_bind. exists split. split; [|done].
    apply list_elem_of_bind. exists cls. split; [|done]. done.
Qed.

Lemma ensure_dirs_within (base : path) :
  respects (dirs_within base) (ensure_dirs base).
Proof.
  unfold ensure_dirs.
  apply respects_for_each; [apply _|]. intros split [] Hs.
  apply respects_for_each; [apply _|]. intros cls [] Hc.
  by apply mkdir_parents_within.
Qed.

Lemma dirs_within_keeps (base p : path) (v v' : world) :
  dirs_within base v v' -> p ∈ out_dirs v -> p ∈ out_dirs v'.
Proof. intros [Hsub _] Hp. by apply Hsub. Qed.

(** Once [ensure_dirs] has returned, every split has a directory for every
    target class. *)
Lemma ensure_dirs_creates (base : path) (w w' : world) :
  ensure_dirs base w = (inr tt, w') ->
  forall split cls, split ∈ SPLITS -> cls ∈ TARGET_CLASSES ->
    os_path_join (os_path_join base split) cls ∈ out_dirs w'.
Proof.
  unfold ensure_dirs. intros Hrun split cls Hs Hc.
  revert cls Hc.
  refine (for_each_establishes (dirs_within base)
    (fun split v => forall cls, cls ∈ TARGET_CLASSES ->
       os_path_join (os_path_join base split) cls ∈ out_dirs v)
    SPLITS _ tt tt w w' _ _ _ Hrun split Hs).
  - intros s [] Hs'. apply respects_for_each; [apply _|]. intros c [] Hc.
    by apply mkdir_parents_within.
  - intros s v v' Hvv HP c Hc.
    apply (dirs_within_keeps base _ v v' Hvv). by apply HP.
  - intros s [] v [] v' Hs' Hinner c Hc.
    refine (for_each_establishes (dirs_within base)
      (fun c v => os_path_join (os_path_join base s) c ∈ out_dirs v)
      TARGET_CLASSES _ tt tt v v' _ _ _ Hinner c Hc).
    + intros c' [] Hc'. by apply mkdir_parents_within.
    + intros c' u u' Huu. by apply (dirs_within_keeps base).
    + intros c' [] u [] u' Hc' Hmk.
      eapply mkdir_parents_creates; [|exact Hmk].
      unfold os_path_join. by destruct base.
Qed.

End Layout.

(** ** Steps that never look at the generator *)

Section GeneratorBlind.
Context `{RS : RandomSource}.

Lemma generator_blind_ret {A} (a : A) : generator_blind (mret a : M A).
Proof. by intros w g. Qed.

Lemma generator_blind_bind {A B} (m : M A) (f : A -> M B) :
  generator_blind m -> (forall a, generator_blind (f a)) ->
  generator_blind (m ≫= f).
Proof.
  intros Hm Hf w g. rewrite !bind_run, Hm.
  destruct (m w) as [[e|a] w1]; simpl; [done|]. apply Hf.
Qed.

Lemma generator_blind_for_each {A S} (l : list A) (body : A -> S -> M S) (acc : S) :
  (forall x acc, generator_blind (body x acc)) ->
  generator_blind (for_each l body acc).
Proof.
  intros Hbody. revert acc. induction l as [|x l IH]; intros acc; simpl.
  - apply generator_blind_ret.
  - apply generator_blind_bind; [apply Hbody|]. intros acc'. apply IH.
Qed.

Lemma generator_blind_print msg : generator_blind (print msg).
Proof. by intros w g. Qed.

Lemma generator_blind_mkdir_parents p : generator_blind (mkdir_parents p).
Proof.
  intros w g. unfold mkdir_parents.
  change (is_file (set_generator g w)) with (is_file w).
  by case_match.
Qed.

Lemma generator_blind_ensure_dirs base : generator_blind (ensure_dirs base).
Proof.
  unfold ensure_dirs.
  apply generator_blind_for_each. intros split [].
  apply generator_blind_for_each. intros cls [].
  apply generator_blind_mkdir_parents.
Qed.

(** Seeding forgets whatever state the generator was in. *)
Lemma seed_generator_forgets (a : Z) (g : rng) (w : world) :
  seed_generator a (set_generator g w) = seed_generator a w.
Proof. done. Qed.

Lemma observable_set_generator (g : rng) (w : world) :
  observable (set_generator g w) = observable w.
Proof. done. Qed.

End GeneratorBlind.

(** ** The balancing scripts *)





Section BalancerLaws.
Context `{RS : RandomSource} {HRS : RandomSourceLaws RS}.




End BalancerLaws.

(** ** Scanned buckets list no path twice *)








Lemma os_path_dirname_join (d : path) (c : string) :
  os_path_dirname (os_path_join d c) = d.
Proof.
  unfold os_path_dirname, os_path_join. rewrite length_app. simpl.
  replace (length d + 1 - 1) with (length d) by lia.
  by rewrite take_app_length.
Qed.

(** ** On an output tree that is ready, the script runs to its end *)

Section Completion.
Context `{RS : RandomSource}.

Lemma bind_inr_run {A B} (m : M A) (f : A -> M B) (w w1 : world) (a : A) :
  m w = (inr a, w1) -> (m ≫= f) w = f a w1.
Proof. intros Hm. by rewrite bind_run, Hm. Qed.

(** A loop whose passes return and keep an invariant returns and keeps it. *)
Lemma for_each_returns {A S} (I : world -> Prop) (l : list A)
    (body : A -> S -> M S) (acc : S) (w : world) :
  (forall x a v, x ∈ l -> I v ->
     exists a' v', body x a v = (inr a', v') /\ I v') ->
  I w ->
  exists acc' w', for_each l body acc w = (inr acc', w') /\ I w'.
Proof.
  revert acc w. induction l as [|x l IH]; intros acc w Hbody Hw.
  - exists acc, w. done.
  - destruct (Hbody x acc w) as (a1 & w1 & Hx & Hw1); [by left|done|].
    destruct (IH a1 w1) as (acc' & w' & Hrest & Hw'); [|done|].
    { intros y a v Hy. apply Hbody. by right. }
    exists acc', w'. split; [|done].
    cbn [for_each]. by rewrite (bind_inr_run _ _ _ _ _ Hx).
Qed.

Lemma ready_for_copy_keeps (out_root : path) (w w' : world) :
  same_dirs w w' -> same_sources w w' ->
  ready_for_copy out_root w -> ready_for_copy out_root w'.
Proof.
  unfold same_dirs, same_sources, ready_for_copy.
  intros -> ->. done.
Qed.

Lemma print_returns (out_root : path) (msg : message) (w : world) :
  ready_for_copy out_root w ->
  exists w', print msg w = (inr tt, w') /\ ready_for_copy out_root w'.
Proof. intros Hw. eexists. split; [done|]. exact Hw. Qed.

Lemma shutil_copy2_returns (src dst : path) (w : world) :
  src ∉ moved_away w -> dst ∉ out_dirs w -> os_path_dirname dst ∈ out_dirs w ->
  exists w', shutil_copy2 src dst w = (inr tt, w').
Proof.
  intros Hsrc Hdst Hparent. unfold shutil_copy2, write_file, is_dir.
  rewrite !(bool_decide_eq_false_2 _ Hdst), (bool_decide_eq_false_2 _ Hsrc).
  rewrite (bool_decide_eq_true_2 _ Hparent). cbn. by eexists.
Qed.

Lemma transfer_file_returns (cfg : config) (out_root : path)
    (split cls : string) (src_file : path) (counters : nat * nat) (w : world) :
  COPY_FILES cfg = true -> split ∈ SPLITS -> cls ∈ TARGET_CLASSES ->
  ready_for_copy out_root w ->
  exists counters' w',
    transfer_file cfg (os_path_join (os_path_join out_root split) cls)
      src_file counters w = (inr counters', w')
    /\ ready_for_copy out_root w'.
Proof.
  intros Hcopy Hs Hc Hready.
  set (dest_dir := os_path_join (os_path_join out_root split) cls).
  assert (Hrun : exists counters' w',
            transfer_file cfg dest_dir src_file counters w = (inr counters', w')).
  { destruct Hready as (Hdirs & Hnosub & Hmoved).
    assert (Hwrite : forall name g,
              exists w',
                shutil_copy2 src_file (os_path_join dest_dir name)
                  (World (out_dirs w) (out_files w) (moved_away w) g (stdout w))
                = (inr tt, w')).
    { intros name g. apply shutil_copy2_returns; cbn.
      - rewrite Hmoved. apply not_elem_of_empty.
      - by apply Hnosub.
      - rewrite os_path_dirname_join. by apply Hdirs. }
    unfold transfer_file. destruct counters as [c t]. rewrite Hcopy.
    rewrite (bind_inr_run (os_path_exists _) _ w w _ eq_refl).
    destruct (is_dir w _ || is_file w _).
    - destruct (splitext (os_path_basename src_file)) as [base_name ext].
      destruct (random_randint 0 99999 (generator w)) as [r g'] eqn:Hr.
      destruct (Hwrite (base_name +:+ "_" +:+ pretty r +:+ ext) g')
        as [w2 Hw2].
      erewrite bind_inr_run.
      2:{ rewrite bind_run. unfold randint. rewrite Hr. reflexivity. }
      rewrite (bind_inr_run _ _ _ _ _ Hw2). by eexists _, _.
    - destruct (Hwrite (os_path_basename src_file) (generator w)) as [w2 Hw2].
      erewrite bind_inr_run by reflexivity.
      destruct w. cbn in Hw2.
      rewrite (bind_inr_run _ _ _ _ _ Hw2). by eexists _, _. }
  destruct Hrun as (counters' & w' & Hrun). exists counters', w'.
  split; [done|].
  pose proof (transfer_file_same_dirs cfg dest_dir src_file counters w) as Hd.
  pose proof (transfer_file_same_sources cfg dest_dir src_file counters Hcopy w)
    as Hm.
  rewrite Hrun in Hd, Hm. by eapply ready_for_copy_keeps.
Qed.

Lemma copy_one_split_returns (cfg : config) (out_root : path) (cls : string)
    (split : string * list path) (counters : nat * nat) (w : world) :
  COPY_FILES cfg = true -> split.1 ∈ SPLITS -> cls ∈ TARGET_CLASSES ->
  ready_for_copy out_root w ->
  exists counters' w',
    copy_one_split cfg out_root cls split counters w = (inr counters', w')
    /\ ready_for_copy out_root w'.
Proof.
  intros Hcopy Hs Hc Hready. destruct split as [split_name file_list].
  unfold copy_one_split.
  destruct (print_returns out_root
              (SplitCount split_name cls (length file_list)) w Hready)
    as (w1 & Hprint & Hw1).
  rewrite (bind_inr_run _ _ _ _ _ Hprint).
  apply for_each_returns; [|done].
  intros src a v _ Hv. by apply transfer_file_returns.
Qed.

Lemma copy_class_returns (cfg : config) (out_root : path)
    (item : string * list path) (total_copied : nat) (w : world) :
  COPY_FILES cfg = true -> item.1 ∈ TARGET_CLASSES -> splittable cfg item.2 ->
  ready_for_copy out_root w ->
  exists total_copied' w',
    copy_class cfg out_root item total_copied w = (inr total_copied', w')
    /\ ready_for_copy out_root w'.
Proof.
  destruct item as [cls files]. cbn [fst snd].
  intros Hcopy Hc Hsplit Hready. unfold copy_class.
  destruct (Nat.eqb (length files) 0) eqn:Hn.
  { destruct (print_returns out_root (WarnEmptyClass cls) w Hready)
      as (w1 & Hprint & Hw1).
    rewrite (bind_inr_run _ _ _ _ _ Hprint). by eexists _, _. }
  destruct Hsplit as [->|[[[train_files val_files] test_files] Hparts]];
    [done|].
  rewrite (bind_inr_run (lift _) _ w w (train_files, val_files, test_files))
    by (unfold lift; by rewrite Hparts).
  destruct (for_each_returns (ready_for_copy out_root)
              [("train", train_files); ("val", val_files); ("test", test_files)]
              (copy_one_split cfg out_root cls) (0, total_copied) w)
    as (counters & w1 & Hloop & Hw1); [|done|].
  { intros x a v Hx Hv. apply copy_one_split_returns; try done.
    apply list_elem_of_In in Hx. apply list_elem_of_In. simpl in *.
    repeat (destruct Hx as [<-|Hx]; [simpl; tauto|]). done. }
  rewrite (bind_inr_run _ _ _ _ _ Hloop).
  destruct (print_returns out_root (ClassCompleted cls counters.1) w1 Hw1)
    as (w2 & Hprint & Hw2).
  rewrite (bind_inr_run _ _ _ _ _ Hprint). by eexists _, _.
Qed.

Lemma verify_output_returns (out_root : path) (w : world) :
  ready_for_copy out_root w ->
  exists total_files' w',
    verify_output out_root w = (inr total_files', w')
    /\ ready_for_copy out_root w'.
Proof.
  intros Hready.
  assert (Hrun : exists total_files' w',
            verify_output out_root w = (inr total_files', w')).
  { unfold verify_output.
    destruct (for_each_returns (ready_for_copy out_root) SPLITS
                (verify_split out_root) (0, []) w)
      as ([total class_counts] & w1 & Hloop & Hw1); [|done|].
    { intros split acc v Hs Hv. unfold verify_split.
      rewrite (bind_inr_run (os_path_exists _) _ v v _ eq_refl).
      destruct (is_dir v _ || is_file v _).
      - apply for_each_returns; [|done].
        intros cls [n counts] u Hc Hu. unfold verify_class.
        rewrite (bind_inr_run (os_path_exists _) _ u u _ eq_refl).
        destruct (is_dir u _ || is_file u _); [|by eexists _, _].
        assert (Hlist : exists listing,
                  os_listdir (os_path_join (os_path_join out_root split) cls) u
                  = (inr listing, u)).
        { unfold os_listdir, is_dir.
          destruct Hu as (Hdirs & _ & _).
          rewrite (bool_decide_eq_true_2 _ (Hdirs split cls Hs Hc)).
          by eexists. }
        destruct Hlist as [listing Hlist].
        rewrite (bind_inr_run _ _ _ _ _ Hlist).
        destruct (Nat.ltb 0 _).
        + destruct (print_returns out_root
                      (VerifyCount split cls
                         (length (filter (fun f => is_image_name f = true) listing)))
                      u Hu) as (u1 & Hprint & Hu1).
          rewrite (bind_inr_run _ _ _ _ _ Hprint). by eexists _, _.
        + rewrite (bind_inr_run (mret tt) _ u u tt eq_refl). by eexists _, _.
      - destruct (print_returns out_root (WarnSplitMissing split) v Hv)
          as (v1 & Hprint & Hv1).
        rewrite (bind_inr_run _ _ _ _ _ Hprint). by eexists _, _. }
    rewrite (bind_inr_run _ _ _ _ _ Hloop).
    destruct (print_returns out_root (VerifySummary total) w1 Hw1)
      as (w2 & Hprint & Hw2).
    rewrite (bind_inr_run _ _ _ _ _ Hprint).
    destruct (for_each_returns (ready_for_copy out_root) SPLITS
                (fun split (_ : unit) =>
                   print (VerifySplitTotal split (split_total class_counts split)))
                tt w2)
      as (u & w3 & Hloop2 & Hw3); [|done|].
    { intros split a v _ Hv.
      destruct (print_returns out_root
                  (VerifySplitTotal split (split_total class_counts split)) v Hv)
        as (v1 & Hprint1 & Hv1).
      by exists tt, v1. }
    rewrite (bind_inr_run _ _ _ _ _ Hloop2). by eexists _, _. }
  destruct Hrun as (n & w' & Hrun). exists n, w'. split; [done|].
  pose proof (verify_output_same_dirs out_root w) as Hd.
  pose proof (verify_output_same_sources out_root w) as Hm.
  rewrite Hrun in Hd, Hm. by eapply ready_for_copy_keeps.
Qed.

Lemma copy_split_returns (cfg : config) (entries : entries_dict)
    (out_root : path) (w : world) :
  COPY_FILES cfg = true ->
  Forall (fun kv => kv.1 ∈ TARGET_CLASSES /\ splittable cfg kv.2) entries ->
  ready_for_copy out_root w ->
  exists w', copy_split cfg entries out_root w = (inr tt, w')
             /\ ready_for_copy out_root w'.
Proof.
  intros Hcopy Hentries Hready. unfold copy_split.
  rewrite (bind_inr_run (seed_generator _) _ w _ tt eq_refl).
  destruct (for_each_returns (ready_for_copy out_root) entries
              (copy_class cfg out_root) 0
              (World (out_dirs w) (out_files w) (moved_away w)
                     (random_seed (RANDOM_SEED cfg)) (stdout w)))
    as (total & w1 & Hloop & Hw1); [|done|].
  { intros item a v Hitem Hv. rewrite Forall_forall in Hentries.
    destruct (Hentries item Hitem). by apply copy_class_returns. }
  rewrite (bind_inr_run _ _ _ _ _ Hloop).
  destruct (print_returns out_root (Done total (total_files entries)) w1 Hw1)
    as (w2 & Hprint & Hw2).
  rewrite (bind_inr_run _ _ _ _ _ Hprint).
  destruct (verify_output_returns out_root w2 Hw2) as (n & w3 & Hverify & Hw3).
  rewrite (bind_inr_run _ _ _ _ _ Hverify). by eexists.
Qed.

End Completion.

(** ** [ensure_dirs] makes the output tree ready *)

Lemma layout_dirs_elem (base q : path) :
  q ∈ layout_dirs base ->
  exists split cls k,
    split ∈ SPLITS /\ cls ∈ TARGET_CLASSES
    /\ q = take k (os_path_join (os_path_join base split) cls).
Proof.
  unfold layout_dirs. intros Hq. apply elem_of_list_to_set in Hq.
  apply list_elem_of_bind in Hq as (split & Hq & Hs).
  apply list_elem_of_bind in Hq as (cls & Hq & Hc).
  apply list_elem_of_fmap in Hq as (k & -> & _). by exists split, cls, k.
Qed.

Lemma layout_dirs_length (base q : path) :
  q ∈ layout_dirs base -> length q <= length base + 2.
Proof.
  intros (split & cls & k & _ & _ & ->)%layout_dirs_elem.
  rewrite length_take. unfold os_path_join. rewrite !length_app. simpl. lia.
Qed.

(** A directory of the layout that sits where class directories sit is the
    directory of a target class. *)
Lemma layout_dirs_class (base : path) (split cls : string) :
  os_path_join (os_path_join base split) cls ∈ layout_dirs base ->
  split ∈ SPLITS /\ cls ∈ TARGET_CLASSES.
Proof.
  intros (split' & cls' & k & Hs & Hc & Heq)%layout_dirs_elem.
  assert (length (os_path_join (os_path_join base split) cls)
          = length (os_path_join (os_path_join base split') cls')) as Hlen.
  { unfold os_path_join. rewrite !length_app. done. }
  rewrite take_ge in Heq.
  - unfold os_path_join in Heq. rewrite <- !(assoc_L (++)) in Heq.
    apply app_inv_head in Heq. by simplify_eq.
  - rewrite <- Hlen. rewrite Heq at 1. rewrite length_take. lia.
Qed.

Lemma dict_setdefault_nonempty (k : string) (d : entries_dict) :
  dict_setdefault k d <> [].
Proof. destruct d as [|[k' v] d]; simpl; [done|]. by case_decide. Qed.

Lemma dict_append_nonempty (k : string) (x : path) (d : entries_dict) :
  d <> [] -> dict_append k x d <> [].
Proof. destruct d as [|[k' v] d]; simpl; [done|]. intros _. by case_decide. Qed.

Lemma scan_dir_nonempty (raw_root : path) (dl : string * list string)
    (d : entries_dict) :
  scan_dir raw_root dl d <> [].
Proof.
  destruct dl as [src listing]. unfold scan_dir.
  generalize (dict_setdefault_nonempty (mapped_class src) d).
  generalize (dict_setdefault (mapped_class src) d).
  induction (filter (fun f => is_image_name f = true) listing) as [|f fs IH];
    intros acc Hacc; simpl; [done|].
  apply IH. by apply dict_append_nonempty.
Qed.

(** A raw root that passes the pre-check always yields a bucket, be it an
    empty one: after the pre-check [entries] is never an empty dict. *)
Lemma collect_images_nonempty (raw_root : path) (raw : raw_tree) :
  check_source_directory raw = true ->
  collect_images_per_class raw_root raw <> [].
Proof.
  unfold check_source_directory, collect_images_per_class.
  destruct raw as [listing|]; [|done].
  destruct (raw_dirs listing) as [|dl dirs]; [done|]. intros _.
  cbn [foldl]. generalize (scan_dir_nonempty raw_root dl []).
  generalize (scan_dir raw_root dl []).
  induction dirs as [|dl' dirs IH]; intros acc Hacc; simpl; [done|].
  apply IH. apply scan_dir_nonempty.
Qed.

Lemma total_files_zero (entries : entries_dict) :
  total_files entries = 0 -> Forall (fun kv => kv.2 = []) entries.
Proof.
  unfold total_files. induction entries as [|[cls files] entries IH]; [done|].
  rewrite fmap_cons. cbn. intros Hsum. constructor.
  - simpl. apply length_zero_iff_nil. lia.
  - apply IH. lia.
Qed.

Section Readiness.
Context `{RS : RandomSource}.

Lemma mkdir_parents_same_sources p : respects same_sources (mkdir_parents p).
Proof. intros w. unfold mkdir_parents. by case_match. Qed.

Lemma mkdir_parents_same_files p : respects same_files (mkdir_parents p).
Proof. intros w. unfold mkdir_parents. by case_match. Qed.

Lemma ensure_dirs_same_files base : respects same_files (ensure_dirs base).
Proof.
  unfold ensure_dirs.
  apply respects_for_each; [apply _|]. intros split [] _.
  apply respects_for_each; [apply _|]. intros cls [] _.
  apply mkdir_parents_same_files.
Qed.

Lemma ensure_dirs_same_sources base : respects same_sources (ensure_dirs base).
Proof.
  unfold ensure_dirs.
  apply respects_for_each; [apply _|]. intros split [] _.
  apply respects_for_each; [apply _|]. intros cls [] _.
  apply mkdir_parents_same_sources.
Qed.

(** On an output location whose class directories hold no sub-directory and
    from which nothing was moved away, [ensure_dirs] leaves a tree that is
    ready for [copy_split]. *)
Lemma ensure_dirs_ready (base : path) (w w1 : world) :
  ensure_dirs base w = (inr tt, w1) ->
  (forall split cls name,
     os_path_join (os_path_join (os_path_join base split) cls) name
     ∉ out_dirs w) ->
  moved_away w = ∅ ->
  ready_for_copy base w1.
Proof.
  intros Hrun Hnosub Hmoved. split; [|split].
  - intros split cls Hs Hc. by eapply ensure_dirs_creates.
  - intros split cls name _ _ Hin.
    pose proof (ensure_dirs_within base w) as [_ Hsub].
    rewrite Hrun in Hsub. apply Hsub in Hin.
    apply elem_of_union in Hin as [Hin|Hin]; [by apply Hnosub in Hin|].
    apply layout_dirs_length in Hin.
    unfold os_path_join in Hin. rewrite !length_app in Hin. simpl in Hin. lia.
  - pose proof (ensure_dirs_same_sources base w) as Hsame.
    rewrite Hrun in Hsame. unfold same_sources in Hsame. simpl in Hsame.
    by rewrite Hsame.
Qed.

(** With the output tree ready after [ensure_dirs], the script confirmed at
    the prompt, copy mode, and every scanned class empty or splittable, the
    script runs to its last line. *)
Lemma main_runs_to_end (cfg : config) (raw : raw_tree) (response : string)
    (w w1 : world) :
  check_source_directory raw = true ->
  str_lower response = "y" ->
  COPY_FILES cfg = true ->
  ensure_dirs (OUT_ROOT cfg) w = (inr tt, w1) ->
  ready_for_copy (OUT_ROOT cfg) w1 ->
  Forall (fun kv => splittable cfg kv.2)
    (collect_images_per_class (RAW_ROOT cfg) raw) ->
  exists w', main cfg raw response w = (inr EndOfScript, w').
Proof.
  intros Hcheck Hresp Hcopy Hdirs Hready Hsplit. unfold main.
  rewrite Hcheck, Hresp.
  change (negb ("y" =? "y")%string) with false. cbn [negb].
  rewrite (bind_inr_run _ _ _ _ _ Hdirs).
  pose proof (collect_images_keys (RAW_ROOT cfg) raw) as Hkeys.
  pose proof (collect_images_nonempty (RAW_ROOT cfg) raw Hcheck) as Hne.
  destruct (collect_images_per_class (RAW_ROOT cfg) raw) as [|item entries];
    [done|].
  destruct (copy_split_returns cfg (item :: entries) (OUT_ROOT cfg) w1 Hcopy)
    as (w2 & Hrun & Hw2); [|done|].
  { rewrite Forall_forall in Hkeys, Hsplit. apply Forall_forall.
    intros kv Hkv. split; [by apply Hkeys|by apply Hsplit]. }
  rewrite (bind_inr_run _ _ _ _ _ Hrun).
  rewrite (bind_inr_run (print Complete) _ w2 _ tt eq_refl). by eexists.
Qed.

End Readiness.


(** * The claims *)

Section SplitClaims.
Context `{RS : RandomSource} {HRS : RandomSourceLaws RS}.

(** C9.  The split is not total over non-empty file lists.  A class of
    exactly one file is refused by the first [train_test_split] (its train
    part, [floor(0.8 * 1)] files, would be empty); a class of two to five
    files passes the first stage with a remainder of exactly one file, which
    the second [train_test_split] refuses.  In both cases the two-stage split
    raises [ValueError] and returns no partition. *)
Theorem split_refuses_small_classes (files : list path) :
  (length files = 1 ->
   train_test_split files None (Some (TRAIN_RATIO script_config))
     (RANDOM_SEED script_config) = inl ValueError) /\
  (2 <= length files <= 5 ->
   exists train temp,
     train_test_split files None (Some (TRAIN_RATIO script_config))
       (RANDOM_SEED script_config) = inr (train, temp)
     /\ length temp = 1
     /\ train_test_split temp
          (Some (TEST_RATIO script_config
                 / (TEST_RATIO script_config + VAL_RATIO script_config))%Q)
          None (RANDOM_SEED script_config)
        = inl ValueError) /\
  (1 <= length files <= 5 -> split_class script_config files = inl ValueError).
Proof.
  destruct (train_test_split_train_size files (TRAIN_RATIO script_config)
              (RANDOM_SEED script_config)) as [Hzero Hpos]; [done..|].
  rewrite script_train_count in Hzero, Hpos.
  split; [|split].
  - intros Hn. apply Hzero. rewrite Hn. done.
  - intros Hn. destruct Hpos as (train & temp & Heq & Hl1 & Hl2 & _).
    { Z.div_mod_to_equations. lia. }
    exists train, temp. split; [done|].
    assert (length temp = 1) as Hone.
    { Z.div_mod_to_equations. lia. }
    split; [done|].
    destruct (train_test_split_test_size temp
                (TEST_RATIO script_config
                 / (TEST_RATIO script_config + VAL_RATIO script_config))
                (RANDOM_SEED script_config)) as [Hz2 _]; [done..|].
    apply Hz2. rewrite Hone. done.
  - intros Hn. by apply (split_class_script files).
Qed.

(** C7, amended.  For each class of at least six files, under the ratios
    (0.8, 0.1, 0.1), the splitter assigns [floor(0.8 * n)] files to train and
    divides the [m = n - floor(0.8 * n)] others between val, [floor(m / 2)],
    and test, [ceil(m / 2)], which is the val:test ratio on the remainder; the
    train count is within one of [0.8 * n], in particular for [n >= 100]. *)
Theorem split_counts_follow_ratios (files : list path) :
  6 <= length files ->
  let n := length files in
  exists train val test,
    split_class script_config files = inr (train, val, test)
    /\ Z.of_nat (length train)
       = Qfloor (TRAIN_RATIO script_config * inject_Z (Z.of_nat n))
    /\ length train = 4 * n / 5
    /\ length val = (n - length train) / 2
    /\ length test = (n - length train + 1) / 2
    /\ length val + length test = n - length train
    /\ 5 * length train <= 4 * n < 5 * length train + 5.
Proof.
  intros Hn n.
  destruct (proj2 (split_class_script files) Hn)
    as (train & val & test & Heq & H1 & H2 & H3 & Hp).
  fold n in H1, H2, H3.
  exists train, val, test. split; [done|].
  rewrite script_train_count, H1, H2, H3.
  pose proof (Nat.div_mod_eq (4 * n) 5).
  pose proof (Nat.mod_upper_bound (4 * n) 5).
  pose proof (Nat.div_mod_eq (n - 4 * n / 5) 2).
  pose proof (Nat.mod_upper_bound (n - 4 * n / 5) 2).
  pose proof (Nat.div_mod_eq (n - 4 * n / 5 + 1) 2).
  pose proof (Nat.mod_upper_bound (n - 4 * n / 5 + 1) 2).
  split; [Z.div_mod_to_equations; lia|].
  repeat split; lia.
Qed.


End SplitClaims.

Section PipelineClaims.
Context `{RS : RandomSource} {HRS : RandomSourceLaws RS}.

(** What a run of the script that reaches its last line has done. *)
Lemma main_end_of_script cfg raw response w w' :
  main cfg raw response w = (inr EndOfScript, w') ->
  exists w1 w2,
    ensure_dirs (OUT_ROOT cfg) w = (inr tt, w1)
    /\ copy_split cfg (collect_images_per_class (RAW_ROOT cfg) raw)
         (OUT_ROOT cfg) w1 = (inr tt, w2)
    /\ stdout w' = stdout w2 ++ [Complete]
    /\ observable w' = (out_dirs w2, out_files w2, moved_away w2,
                        stdout w2 ++ [Complete]).
Proof.
  unfold main. intros Hrun.
  destruct (negb (check_source_directory raw)).
  { apply bind_inr in Hrun as (u & w1 & _ & Hrun). by injection Hrun. }
  destruct (negb (String.eqb (str_lower response) "y")).
  { apply bind_inr in Hrun as (u & w1 & _ & Hrun). by injection Hrun. }
  apply bind_inr in Hrun as ([] & w1 & Hdirs & Hrun).
  destruct (collect_images_per_class (RAW_ROOT cfg) raw) as [|item entries].
  { apply bind_inr in Hrun as (u & w2 & _ & Hrun). by injection Hrun. }
  apply bind_inr in Hrun as ([] & w2 & Hcopy & Hrun).
  apply bind_inr in Hrun as ([] & w3 & Hprint & Hrun).
  injection Hrun as <-. unfold print in Hprint. simplify_eq.
  exists w1, w2. done.
Qed.


(** C10.  Every raw label is mapped, lower-cased, through the table, labels
    absent from it to "Invalid", and so into the six target classes; every
    bucket of a scan is keyed by a target class; once [ensure_dirs] has
    returned, the directory of every bucket's class exists under each of the
    three splits; and [copy_split] leaves the set of directories of the output
    tree as [ensure_dirs] made it, the directories of the layout added to
    those that were there: a class directory that was not there before is the
    directory of a target class. *)
Theorem classes_stay_in_taxonomy cfg raw (w w1 : world) :
  ensure_dirs (OUT_ROOT cfg) w = (inr tt, w1) ->
  let entries := collect_images_per_class (RAW_ROOT cfg) raw in
  (forall src,
     mapped_class src ∈ TARGET_CLASSES
     /\ mapped_class src = default "Invalid" (map_to_command !! str_lower src)
     /\ (map_to_command !! str_lower src = None -> mapped_class src = "Invalid"))
  /\ (forall cls files, (cls, files) ∈ entries ->
        cls ∈ TARGET_CLASSES
        /\ forall split, split ∈ SPLITS ->
             os_path_join (os_path_join (OUT_ROOT cfg) split) cls ∈ out_dirs w1)
  /\ out_dirs w ⊆ out_dirs w1
  /\ out_dirs w1 ⊆ out_dirs w ∪ layout_dirs (OUT_ROOT cfg)
  /\ out_dirs (copy_split cfg entries (OUT_ROOT cfg) w1).2 = out_dirs w1
  /\ (forall split cls,
        os_path_join (os_path_join (OUT_ROOT cfg) split) cls
        ∈ out_dirs (copy_split cfg entries (OUT_ROOT cfg) w1).2 ->
        os_path_join (os_path_join (OUT_ROOT cfg) split) cls ∈ out_dirs w
        \/ cls ∈ TARGET_CLASSES).
Proof.
  intros Hdirs entries.
  assert (Hwithin : out_dirs w1 ⊆ out_dirs w ∪ layout_dirs (OUT_ROOT cfg)).
  { pose proof (ensure_dirs_within (OUT_ROOT cfg) w) as [_ Hsub].
    by rewrite Hdirs in Hsub. }
  split; [|split; [|split; [|split; [|split]]]].
  - intros src. split; [apply mapped_class_target|]. split; [done|].
    intros Hnone. unfold mapped_class. by rewrite Hnone.
  - intros cls files Hin.
    pose proof (collect_images_keys (RAW_ROOT cfg) raw) as Hkeys.
    rewrite Forall_forall in Hkeys. specialize (Hkeys _ Hin). simpl in Hkeys.
    split; [done|]. intros split Hs. by eapply ensure_dirs_creates.
  - pose proof (ensure_dirs_within (OUT_ROOT cfg) w) as [Hsub _].
    by rewrite Hdirs in Hsub.
  - exact Hwithin.
  - apply copy_split_same_dirs.
  - intros split cls Hin.
    rewrite (copy_split_same_dirs cfg entries (OUT_ROOT cfg) w1) in Hin.
    apply Hwithin in Hin. apply elem_of_union in Hin as [Hin|Hin]; [by left|].
    right. by apply layout_dirs_class in Hin as [_ ?].
Qed.

(** C2, amended.  The seed controls the random choices of the preparation
    script, split shuffling and collision suffixes: whatever state the
    generator was in when the script started, two runs on the same input
    listing and the same output tree end alike, with the same outcome, the
    same output tree and the same printed lines. *)
Theorem preparation_is_deterministic cfg raw response (w : world) (g1 g2 : rng) :
  let run1 := main cfg raw response (set_generator g1 w) in
  let run2 := main cfg raw response (set_generator g2 w) in
  run1.1 = run2.1 /\ observable run1.2 = observable run2.2.
Proof.
  unfold main.
  destruct (negb (check_source_directory raw)); [done|].
  destruct (negb (String.eqb (str_lower response) "y")); [done|].
  cbv zeta. rewrite !bind_run, !generator_blind_ensure_dirs.
  destruct (ensure_dirs (OUT_ROOT cfg) w) as [[e|[]] w1]; [done|]. cbn [fst snd].
  destruct (collect_images_per_class (RAW_ROOT cfg) raw) as [|item entries];
    [done|].
  rewrite !bind_run. unfold copy_split at 1 3.
  rewrite !(bind_run (seed_generator _)), !seed_generator_forgets. done.
Qed.

End PipelineClaims.

Section CollisionClaims.
Context `{RS : RandomSource}.

(** C3, the code at the failing input.  In copy mode, when the destination
    name is taken and the name with the drawn suffix is taken as well, by a
    file and not by a directory, the transfer returns normally with both
    counters advanced, and the file that was at the suffixed name now holds the
    bytes of the new source: it has been replaced, and the class directory
    holds no more files than before. *)
Theorem taken_suffix_is_overwritten (cfg : config) (dest_dir src_file : path)
    (counters : nat * nat) (w : world) (old : path) :
  let name := os_path_basename src_file in
  let r := (random_randint 0 99999 (generator w)).1 in
  let suffixed :=
    os_path_join dest_dir
      ((splitext name).1 +:+ "_" +:+ pretty r +:+ (splitext name).2) in
  COPY_FILES cfg = true ->
  dest_dir ∈ out_dirs w ->
  is_Some (out_files w !! os_path_join dest_dir name) ->
  out_files w !! suffixed = Some old ->
  suffixed ∉ out_dirs w ->
  src_file ∉ moved_away w ->
  exists w',
    transfer_file cfg dest_dir src_file counters w
      = (inr (counters.1 + 1, counters.2 + 1), w')
    /\ out_files w' = <[suffixed := src_file]> (out_files w)
    /\ out_files w' !! suffixed = Some src_file
    /\ size (out_files w') = size (out_files w).
Proof.
  intros name r suffixed Hcopy Hdir Htaken Hold Hnodir Hsrc.
  destruct counters as [c t].
  destruct (splitext name) as [base_name ext] eqn:Hext.
  destruct (random_randint 0 99999 (generator w)) as [r' g'] eqn:Hr.
  cbn [fst snd] in *. subst r.
  set (w1 := World (out_dirs w) (out_files w) (moved_away w) g' (stdout w)).
  assert (Hexists : os_path_exists (os_path_join dest_dir name) w = (inr true, w)).
  { unfold os_path_exists, is_file.
    rewrite (bool_decide_eq_true_2 _ Htaken). by rewrite orb_true_r. }
  assert (Hdraw : randint 0 99999 w = (inr r', w1)).
  { unfold randint. by rewrite Hr. }
  assert (Hwrite : shutil_copy2 src_file suffixed w1
            = (inr tt, World (out_dirs w) (<[suffixed := src_file]> (out_files w))
                             (moved_away w) g' (stdout w))).
  { unfold shutil_copy2, write_file, is_dir. cbn [out_dirs out_files moved_away w1].
    rewrite !(bool_decide_eq_false_2 _ Hnodir).
    rewrite (bool_decide_eq_false_2 _ Hsrc).
    replace (os_path_dirname suffixed) with dest_dir
      by (symmetry; apply os_path_dirname_join).
    by rewrite (bool_decide_eq_true_2 _ Hdir). }
  eexists. split.
  - unfold transfer_file. fold name. rewrite Hext, Hcopy.
    rewrite bind_run, Hexists. rewrite bind_run, bind_run, Hdraw.
    unfold mret at 1, M_ret at 1.
    rewrite bind_run. fold suffixed. rewrite Hwrite. done.
  - cbn [out_files]. split; [done|]. split; [apply lookup_insert_eq|].
    apply map_size_insert_Some. by eexists.
Qed.

End CollisionClaims.

Section ConfigurationClaims.
Context `{RS : RandomSource} {HRS : RandomSourceLaws RS}.


(** The run of the script on [no_image_tree], from an empty output
    location, whatever the generator. *)
Lemma no_image_tree_run (g : rng) :
  let run := main script_config no_image_tree "y" (fresh_world g) in
  run.1 = inr EndOfScript
  /\ out_files run.2 = ∅
  /\ stdout run.2 =
       [WarnEmptyClass "Forward"; Done 0 0; VerifySummary 0;
        VerifySplitTotal "train" 0; VerifySplitTotal "val" 0;
        VerifySplitTotal "test" 0; Complete].
Proof.
  cbv zeta. split; [|split]; by vm_compute.
Qed.

(** C6, the code at the failing inputs.  When the raw root has label
    directories but the scan finds no image in any of them, the script,
    confirmed at the prompt and with its output directories made, does not
    stop with an error: it runs to its last line, writes no file, and prints
    "Successfully processed 0/0" and the closing success banner. *)
Theorem empty_corpus_reported_as_success (cfg : config) (raw : raw_tree)
    (response : string) (w w1 : world) :
  check_source_directory raw = true ->
  str_lower response = "y" ->
  COPY_FILES cfg = true ->
  ensure_dirs (OUT_ROOT cfg) w = (inr tt, w1) ->
  ready_for_copy (OUT_ROOT cfg) w1 ->
  total_files (collect_images_per_class (RAW_ROOT cfg) raw) = 0 ->
  exists w',
    main cfg raw response w = (inr EndOfScript, w')
    /\ out_files w' = out_files w
    /\ Done 0 0 ∈ stdout w'
    /\ last (stdout w') = Some Complete.
Proof.
  intros Hcheck Hresp Hcopy Hdirs Hready Hzero.
  pose proof (total_files_zero _ Hzero) as Hempty.
  destruct (main_runs_to_end cfg raw response w w1) as [w' Hrun]; try done.
  { eapply Forall_impl; [exact Hempty|]. intros kv Hkv. by left. }
  exists w'. split; [done|].
  apply main_end_of_script in Hrun as (v1 & v2 & Hv1 & Hv2 & Hout & Hobs).
  rewrite Hdirs in Hv1. simplify_eq. split; [|split].
  - assert (out_files w' = out_files v2) as ->
      by (unfold observable in Hobs; congruence).
    pose proof (copy_split_empty_same_files cfg _ (OUT_ROOT cfg) Hempty v1) as H2.
    pose proof (ensure_dirs_same_files (OUT_ROOT cfg) w) as H1.
    rewrite Hv2 in H2. rewrite Hdirs in H1.
    unfold same_files in H1, H2. simpl in H1, H2. congruence.
  - rewrite Hout. apply elem_of_app. left.
    apply copy_split_done in Hv2. by rewrite Hzero in Hv2.
  - rewrite Hout. apply last_snoc.
Qed.


End ConfigurationClaims.

(** * The claims on concrete inputs *)

(** C9 at a bucket of one file, with the counter generator. *)
Lemma split_refuses_small_classes_witness :
  split_class (RS := counter_source) script_config [["raw"; "like"; "a.jpg"]]
  = inl ValueError.
Proof.
  apply (split_refuses_small_classes (HRS := counter_source_laws)
           [["raw"; "like"; "a.jpg"]]).
  simpl. lia.
Defined.

(** C7: a bucket of five files, which the scan of [five_file_tree] yields, is
    assigned to no split at all. *)
Lemma five_files_get_no_split :
  collect_images_per_class ["raw"] five_file_tree
  = [("Invalid",
      [["raw"; "unknown_gesture"; "c0.jpg"]; ["raw"; "unknown_gesture"; "c1.jpg"];
       ["raw"; "unknown_gesture"; "c2.jpg"]; ["raw"; "unknown_gesture"; "c3.jpg"];
       ["raw"; "unknown_gesture"; "c4.jpg"]])]
  /\ split_class (RS := counter_source) script_config
       [["raw"; "unknown_gesture"; "c0.jpg"]; ["raw"; "unknown_gesture"; "c1.jpg"];
        ["raw"; "unknown_gesture"; "c2.jpg"]; ["raw"; "unknown_gesture"; "c3.jpg"];
        ["raw"; "unknown_gesture"; "c4.jpg"]]
     = inl ValueError.
Proof. split; by vm_compute. Qed.

(** C7, amended, at a bucket of six files. *)
Lemma split_counts_follow_ratios_witness :
  exists train val test,
    split_class (RS := counter_source) script_config six_file_bucket
      = inr (train, val, test)
    /\ length train = 4 /\ length val = 1 /\ length test = 1.
Proof.
  destruct (split_counts_follow_ratios (HRS := counter_source_laws)
              six_file_bucket) as (train & val & test & Heq & _ & H1 & H2 & H3 & _).
  { simpl. lia. }
  exists train, val, test. rewrite H2, H3, H1. done.
Defined.





(** C10 on the script's output root, from an empty output location. *)
Lemma classes_stay_in_taxonomy_witness :
  mapped_class "Peace" ∈ TARGET_CLASSES
  /\ mapped_class "thumbs_up" = "Invalid"
  /\ out_dirs (copy_split (RS := counter_source) script_config
                 (collect_images_per_class (RAW_ROOT script_config) clash_tree)
                 (OUT_ROOT script_config)
                 (ensure_dirs (OUT_ROOT script_config) empty_location).2).2
     = out_dirs (ensure_dirs (OUT_ROOT script_config) empty_location).2.
Proof.
  destruct (classes_stay_in_taxonomy (RS := counter_source) script_config
              clash_tree empty_location
              (ensure_dirs (OUT_ROOT script_config) empty_location).2)
    as (Hlabel & _ & _ & _ & Hdirs & _).
  { by vm_compute. }
  split; [apply Hlabel|]. split; [|exact Hdirs].
  apply (Hlabel "thumbs_up"). by vm_compute.
Defined.

(** C2: the balancing script on a directory of two files with cap 1, started
    with the generator in two different states, removes [a.jpg] in one run and
    [b.jpg] in the other. *)
Lemma balancer_runs_differ :
  (balance (RS := counter_source) 1 (random_seed 0) (Some two_file_folder)).2
  <> (balance (RS := counter_source) 1 (random_seed 1) (Some two_file_folder)).2.
Proof.
  intros Heq.
  apply (f_equal (fun d => d ≫= fun m : folder => m !! "a.jpg")) in Heq.
  vm_compute in Heq. discriminate.
Qed.

(** C3 at [crowded_world]: [dislike/x.jpg] goes to the taken [x_42.jpg]. *)
Lemma taken_suffix_is_overwritten_witness :
  exists w',
    transfer_file (RS := counter_source) script_config
      ["data"; "train"; "Invalid"] ["raw"; "dislike"; "x.jpg"] (0, 0)
      crowded_world = (inr (1, 1), w')
    /\ out_files w' !! ["data"; "train"; "Invalid"; "x_42.jpg"]
       = Some ["raw"; "dislike"; "x.jpg"]
    /\ size (out_files w') = 2.
Proof.
  destruct (taken_suffix_is_overwritten (RS := counter_source) script_config
              ["data"; "train"; "Invalid"] ["raw"; "dislike"; "x.jpg"] (0, 0)
              crowded_world ["raw"; "call"; "x_42.jpg"])
    as (w' & Hrun & _ & Hnew & Hsize).
  - reflexivity.
  - by vm_compute.
  - eexists. by vm_compute.
  - by vm_compute.
  - vm_compute. discriminate.
  - vm_compute. discriminate.
  - exists w'. split; [exact Hrun|]. split; [exact Hnew|]. exact Hsize.
Defined.



(** C6 at [no_image_tree], from an empty output location. *)
Lemma empty_corpus_reported_as_success_witness :
  exists w',
    main (RS := counter_source) script_config no_image_tree "y" empty_location
      = (inr EndOfScript, w')
    /\ out_files w' = ∅
    /\ Done 0 0 ∈ stdout w'.
Proof.
  destruct (empty_corpus_reported_as_success (HRS := counter_source_laws)
              script_config no_image_tree "y" empty_location
              (ensure_dirs (OUT_ROOT script_config) empty_location).2)
    as (w' & Hrun & Hfiles & Hdone & _).
  - reflexivity.
  - reflexivity.
  - reflexivity.
  - by vm_compute.
  - apply (ensure_dirs_ready _ empty_location); [by vm_compute| |reflexivity].
    intros split cls name. apply not_elem_of_empty.
  - by vm_compute.
  - exists w'. split; [exact Hrun|]. split; [exact Hfiles|exact Hdone].
Defined.

